(** * Image URL resolution of the product scraper

    A shallow embedding of [get_original_image_url] (src/main.py, lines
    15-69) together with the pieces of the Python runtime it calls:
    [str.split], [str.strip], [str.endswith], slicing, [int], [max] with a
    key, and the two regular expressions given to [re.search] and
    [re.match].

    Strings are lists of characters.  A character is a code point in the
    range 0..255 (the Latin-1 part of Python's [str]); the character
    classes below are those of CPython on that range. *)

From Stdlib Require Import Ascii String List ZArith Lia Bool Arith.
From Stdlib Require DecimalString DecimalNat ListSet.
Import ListNotations.

Set Implicit Arguments.

(** ** Strings *)

Definition str := list ascii.

(** A string literal as a list of characters. *)
Definition lit (s : string) : str := list_ascii_of_string s.

Definition ord (c : ascii) : nat := nat_of_ascii c.

Definition in_range (lo hi : nat) (c : ascii) : bool :=
  (lo <=? ord c)%nat && (ord c <=? hi)%nat.

(** Equality of strings is decidable: [==] on strings, and membership in
    a set of strings. *)
Definition str_eq_dec : forall a b : str, {a = b} + {a <> b} :=
  list_eq_dec ascii_dec.

(** ** Exceptions

    A computation either returns a value or raises.  [try_except] is
    [try: ... except Exception: ...]: every exception raised by the body is
    handed to the handler. *)

Inductive exn : Type :=
| ValueError
| TypeError.

Inductive result (A : Type) : Type :=
| Ok (a : A)
| Raise (e : exn).

Arguments Ok {A} a.
Arguments Raise {A} e.

Definition bind {A B : Type} (m : result A) (k : A -> result B) : result B :=
  match m with
  | Ok a => k a
  | Raise e => Raise e
  end.

Notation "x <- m ;; k" := (bind m (fun x => k))
  (at level 61, m at next level, right associativity).

Definition try_except {A : Type} (body : result A) (handler : exn -> result A)
  : result A :=
  match body with
  | Ok a => Ok a
  | Raise e => handler e
  end.

(** ** The Python string methods used by the resolver *)

Module Py.

(** [str.isspace] on one character: the characters [str.split()] and
    [str.strip()] treat as white space. *)
Definition isspace (c : ascii) : bool :=
  in_range 9 13 c || in_range 28 32 c || (ord c =? 133)%nat || (ord c =? 160)%nat.

Definition isdigit (c : ascii) : bool := in_range 48 57 c.

(** [s.split(sep)] for a one-character separator: the pieces between the
    separators, empty pieces kept; never an empty list. *)
Fixpoint split_on (sep : ascii) (s : str) : list str :=
  match s with
  | [] => [[]]
  | c :: t =>
      if Ascii.eqb c sep then [] :: split_on sep t
      else match split_on sep t with
           | w :: ws => (c :: w) :: ws
           | [] => [[c]]
           end
  end.

Fixpoint lstrip (s : str) : str :=
  match s with
  | c :: t => if isspace c then lstrip t else s
  | [] => []
  end.

Definition rstrip (s : str) : str := rev (lstrip (rev s)).

(** [s.strip()] *)
Definition strip (s : str) : str := rstrip (lstrip s).

(** [s.split()]: the maximal runs of characters that are not white space.
    [cur] is the run being read, last character first. *)
Fixpoint split_ws_from (cur : str) (s : str) : list str :=
  match s with
  | [] => match cur with [] => [] | _ => [rev cur] end
  | c :: t =>
      if isspace c then
        match cur with
        | [] => split_ws_from [] t
        | _ => rev cur :: split_ws_from [] t
        end
      else split_ws_from (c :: cur) t
  end.

Definition split (s : str) : list str := split_ws_from [] s.

(** [s.endswith(suffix)] *)
Fixpoint startswith (prefix s : str) : bool :=
  match prefix, s with
  | [], _ => true
  | p :: ps, c :: t => Ascii.eqb p c && startswith ps t
  | _ :: _, [] => false
  end.

Definition endswith (suffix s : str) : bool := startswith (rev suffix) (rev s).

(** [s[:-1]] *)
Definition drop_last (s : str) : str := removelast s.

(** *** [int(s)]

    White space is removed at both ends, one sign is accepted, then decimal
    digits follow, with single underscores allowed between digits.  A
    literal of more than [int_max_str_digits] digits is refused (CPython 3.11
    and later, default limit).  Anything else raises [ValueError]. *)

Definition int_isspace (c : ascii) : bool :=
  in_range 9 13 c || (ord c =? 32)%nat || (ord c =? 133)%nat || (ord c =? 160)%nat.

Fixpoint int_lstrip (s : str) : str :=
  match s with
  | c :: t => if int_isspace c then int_lstrip t else s
  | [] => []
  end.

Definition int_strip (s : str) : str := rev (int_lstrip (rev (int_lstrip s))).

Definition digit_val (c : ascii) : Z := Z.of_nat (ord c) - 48.

Definition int_max_str_digits : nat := 4300.

(** The digits after the sign: [acc] is the value read so far, [n] the
    number of digits read, [us] tells that the previous character was an
    underscore. *)
Fixpoint int_digits (acc : Z) (n : nat) (us : bool) (s : str) : option (Z * nat) :=
  match s with
  | [] => if us then None else Some (acc, n)
  | c :: t =>
      if isdigit c then int_digits (10 * acc + digit_val c) (S n) false t
      else if Ascii.eqb c "_" then
             if us then None else int_digits acc n true t
           else None
  end.

Definition int_body (s : str) : option (Z * nat) :=
  match s with
  | c :: _ => if isdigit c then int_digits 0 0 false s else None
  | [] => None
  end.

Definition int (s : str) : result Z :=
  let s := int_strip s in
  let '(sign, body) :=
    match s with
    | c :: t =>
        if Ascii.eqb c "+" then (1, t)
        else if Ascii.eqb c "-" then (-1, t)
        else (1, s)
    | [] => (1, s)
    end%Z in
  match int_body body with
  | Some (v, n) =>
      if (int_max_str_digits <? n)%nat then Raise ValueError
      else Ok (sign * v)%Z
  | None => Raise ValueError
  end.

(** *** [max(l, key=...)]

    The first element whose key is not exceeded by any other: the running
    best is replaced only by an element with a strictly larger key.  On an
    empty list [max] raises [ValueError]. *)
Definition max_by {A : Type} (key : A -> Z) (l : list A) : result A :=
  match l with
  | [] => Raise ValueError
  | x :: t =>
      Ok (fold_left (fun best y => if (key best <? key y)%Z then y else best) t x)
  end.

(** Truth value of a string or [None]: [None] and the empty string are
    false. *)
Definition truthy (o : option str) : bool :=
  match o with
  | Some (_ :: _) => true
  | _ => false
  end.

(** [c.isdigit()] for one character: the decimal digits and the
    superscript digits two, three and one of Latin-1. *)
Definition str_isdigit (c : ascii) : bool :=
  in_range 48 57 c || (ord c =? 178)%nat || (ord c =? 179)%nat || (ord c =? 185)%nat.

(** [sep.join(l)] *)
Fixpoint join (sep : str) (l : list str) : str :=
  match l with
  | [] => []
  | x :: t =>
      match t with
      | [] => x
      | _ :: _ => x ++ sep ++ join sep t
      end
  end.

End Py.

(** ** Regular expressions

    The constructs the two patterns of the resolver use, matched the way
    the [re] module does it: by backtracking, alternatives tried in order of
    priority.  [run r st] lists every way [r] can match from [st], the
    preferred one first; a greedy repetition lists the longest run first. *)

Module Re.

Inductive regex : Type :=
| Lit (c : ascii)                                   (* a literal character *)
| Cls (p : ascii -> bool)                           (* one character of a class *)
| Rep (p : ascii -> bool) (lo : nat) (hi : option nat)
                                                    (* greedy class{lo,hi} *)
| Opt (r : regex)                                   (* greedy r? *)
| Seq (r1 r2 : regex)
| Grp (n : nat) (r : regex)                         (* capturing group n *)
| Bol                                               (* ^ *)
| Eol.                                              (* $ *)

Infix ">>" := Seq (at level 60, right associativity).

(** Position in the subject, what is left of it, and the groups captured so
    far (the latest capture first). *)
Record mstate : Type := MState {
  pos : nat;
  rest : str;
  groups : list (nat * str)
}.

Definition start (s : str) : mstate := MState 0 s [].

Definition advance (st : mstate) (t : str) : mstate :=
  MState (S (pos st)) t (groups st).

Definition set_group (n : nat) (w : str) (st : mstate) : mstate :=
  MState (pos st) (rest st) ((n, w) :: groups st).

(** The character classes of the patterns. *)
Definition digit (c : ascii) : bool := in_range 48 57 c.               (* \d *)
Definition alpha (c : ascii) : bool := in_range 97 122 c || in_range 65 90 c.
                                                                       (* [a-zA-Z] *)
Definition newline : ascii := "010"%char.
Definition any (c : ascii) : bool := negb (Ascii.eqb c newline).       (* . *)

Definition allows (hi : option nat) : bool :=
  match hi with
  | Some 0 => false
  | _ => true
  end.

(** Greedy repetition of a class: take a character while the class and the
    upper bound allow, and give back one at a time down to [lo]. *)
Fixpoint rep (p : ascii -> bool) (lo : nat) (hi : option nat) (n : nat) (s : str)
  : list (nat * str) :=
  let stop := if (lo =? 0)%nat then [(n, s)] else [] in
  match s with
  | c :: t =>
      if p c && allows hi
      then rep p (Nat.pred lo) (option_map Nat.pred hi) (S n) t ++ stop
      else stop
  | [] => stop
  end.

Fixpoint run (r : regex) (st : mstate) : list mstate :=
  match r with
  | Lit c =>
      match rest st with
      | x :: t => if Ascii.eqb x c then [advance st t] else []
      | [] => []
      end
  | Cls p =>
      match rest st with
      | x :: t => if p x then [advance st t] else []
      | [] => []
      end
  | Rep p lo hi =>
      map (fun e => MState (fst e) (snd e) (groups st))
          (rep p lo hi (pos st) (rest st))
  | Opt r1 => run r1 st ++ [st]
  | Seq r1 r2 => flat_map (run r2) (run r1 st)
  | Grp n r1 =>
      map (fun st' => set_group n (firstn (pos st' - pos st) (rest st)) st')
          (run r1 st)
  | Bol => if (pos st =? 0)%nat then [st] else []
  | Eol =>
      match rest st with
      | [] => [st]
      | [c] => if Ascii.eqb c newline then [st] else []
      | _ => []
      end
  end.

(** [re.match(r, s)]: the preferred match at position 0, or [None]. *)
Definition re_match (r : regex) (s : str) : option mstate :=
  hd_error (run r (start s)).

(** [re.search(r, s)]: the preferred match at the first position that has
    one. *)
Fixpoint search_from (r : regex) (n : nat) (s : str) : option mstate :=
  match run r (MState n s []) with
  | m :: _ => Some m
  | [] =>
      match s with
      | [] => None
      | _ :: t => search_from r (S n) t
      end
  end.

Definition re_search (r : regex) (s : str) : option mstate := search_from r 0 s.

(** [m.group(n)]: [None] when group [n] took no part in the match. *)
Fixpoint lookup (n : nat) (gs : list (nat * str)) : option str :=
  match gs with
  | [] => None
  | (k, w) :: gs' => if (k =? n)%nat then Some w else lookup n gs'
  end.

Definition group (m : mstate) (n : nat) : option str := lookup n (groups m).

Definition space (c : ascii) : bool := Py.isspace c.                   (* \s *)

(** [re.sub(r, repl, s)] for a replacement without backslashes.  The
    subject is read from the left; [n] is the position and [skip] the number
    of characters still to pass over because they belong to the match that
    was found last.  Where [r] matches, [repl] is written and the matched
    characters are left out; after an empty match one character is copied;
    where [r] does not match, the character is copied. *)
Fixpoint sub_from (r : regex) (repl : str) (n skip : nat) (s : str) : str :=
  match skip with
  | S k =>
      match s with
      | [] => []
      | _ :: t => sub_from r repl (S n) k t
      end
  | 0 =>
      match run r (MState n s []) with
      | m :: _ =>
          repl ++
          match s with
          | [] => []
          | c :: t =>
              if (pos m =? n)%nat then c :: sub_from r repl (S n) 0 t
              else sub_from r repl (S n) (pos m - n - 1) t
          end
      | [] =>
          match s with
          | [] => []
          | c :: t => c :: sub_from r repl (S n) 0 t
          end
      end
  end.

Definition re_sub (r : regex) (repl : str) (s : str) : str := sub_from r repl 0 0 s.

End Re.

Import Re.

(** ** The resolver *)

(** A srcset candidate: the dictionary [{'url': ..., 'width': ...}]. *)
Record candidate : Type := Candidate {
  url : str;
  width : Z
}.

(** Line 43, the pattern "-\d+x\d+\.[a-zA-Z]{3,4}$". *)
Definition resized_re : regex :=
  Lit "-" >> Rep digit 1 None >> Lit "x" >> Rep digit 1 None >>
  Lit "." >> Rep alpha 3 (Some 4) >> Eol.

(** Line 62, the pattern (written here with spaces between its parts)
    "^ ( .* ) ( -\d+x\d+ (@\dx)? ) \. ( [a-zA-Z]{3,5} ) $". *)
Definition clean_re : regex :=
  Bol >>
  Grp 1 (Rep any 0 None) >>
  Grp 2 (Lit "-" >> Rep digit 1 None >> Lit "x" >> Rep digit 1 None >>
         Opt (Grp 3 (Lit "@" >> Cls digit >> Lit "x"))) >>
  Lit "." >>
  Grp 4 (Rep alpha 3 (Some 5)) >>
  Eol.

(** Lines 31-38: the body of the loop, for one entry of the srcset. *)
Definition parse_entry (candidates : list candidate) (s_entry : str)
  : result (list candidate) :=
  let parts := Py.split (Py.strip s_entry) in
  match parts with
  | [u; width_descriptor] =>
      if Py.endswith (lit "w") width_descriptor then
        w <- Py.int (Py.drop_last width_descriptor) ;;
        Ok (candidates ++ [Candidate u w])
      else Ok candidates
  | [u] => Ok (candidates ++ [Candidate u 0])
  | _ => Ok candidates
  end.

(** Lines 29-38: the loop over [srcset_str.split(',')]. *)
Fixpoint parse_entries (candidates : list candidate) (entries : list str)
  : result (list candidate) :=
  match entries with
  | [] => Ok candidates
  | s_entry :: more =>
      candidates' <- parse_entry candidates s_entry ;;
      parse_entries candidates' more
  end.

Definition parse_srcset (srcset_str : str) : result (list candidate) :=
  parse_entries [] (Py.split_on "," srcset_str).

(** The test of line 43: [re.search(...)] found a match. *)
Definition looks_resized (u : str) : bool :=
  match re_search resized_re u with
  | Some _ => true
  | None => false
  end.

Definition non_resized (candidates : list candidate) : list candidate :=
  filter (fun c => negb (looks_resized (url c))) candidates.

(** Lines 40-48: the choice among the candidates; [None] is the value
    [best_url] keeps when there is no candidate. *)
Definition choose (candidates : list candidate) : result (option str) :=
  match candidates with
  | [] => Ok None
  | _ :: _ =>
      match non_resized candidates with
      | _ :: _ =>
          c <- Py.max_by width (non_resized candidates) ;; Ok (Some (url c))
      | [] =>
          c <- Py.max_by width candidates ;; Ok (Some (url c))
      end
  end.

(** Lines 29-48: the body of the [try]. *)
Definition srcset_best (srcset_str : str) : result (option str) :=
  candidates <- parse_srcset srcset_str ;;
  choose candidates.

(** A group in an f-string: [None] is printed as the word. *)
Definition fmt (g : option str) : str :=
  match g with
  | Some w => w
  | None => lit "None"
  end.

(** Lines 62-69: the cleaning of the chosen URL. *)
Definition clean_url (best_url : str) : str :=
  match re_match clean_re best_url with
  | Some m =>
      let base_name := group m 1 in
      let extension := group m 4 in
      fmt base_name ++ lit "." ++ fmt extension
  | None => best_url
  end.

(** Lines 24-55: [best_url] when line 57 is reached, in a run in which the
    print of line 50 does not raise: the handler lets the function go on
    with [best_url] still [None].  [working_url_printing] below has the
    print. *)
Definition working_url (image_url srcset_str : option str) : result (option str) :=
  let best_url : option str := None in
  best_url <-
    match srcset_str with
    | Some (c :: s) =>
        try_except (srcset_best (c :: s))
                   (fun _ => Ok best_url)
    | _ => Ok best_url
    end ;;
  Ok (if negb (Py.truthy best_url) then image_url else best_url).

(** Lines 15-69. *)
Definition get_original_image_url (image_url srcset_str : option str)
  : result (option str) :=
  if negb (Py.truthy image_url) && negb (Py.truthy srcset_str) then Ok None
  else
    best_url <- working_url image_url srcset_str ;;
    match best_url with
    | Some (c :: u) => Ok (Some (clean_url (c :: u)))
    | _ => Ok None
    end.

(** *** The print of line 50

    The handler of lines 49-51 prints a line made of the exception caught
    before it lets the function go on, and a [print] can raise (a closed or
    broken standard output, text the output cannot encode); nothing catches
    that.  Below, [print srcset_str e] is the outcome of the statement of
    line 50 when [e] was caught while [srcset_str] was read; the text
    written is made from these two.  [working_url] and
    [get_original_image_url] above are the function in a run in which this
    statement does not raise. *)



(** ** File names (lines 10-13) *)

(** Line 11: the characters of the class given to [re.sub]: less than,
    greater than, colon, double quote (code 34), slash, backslash (code 92),
    vertical bar, question mark and star. *)
Definition forbidden (c : ascii) : bool :=
  existsb (Ascii.eqb c)
          ["<"; ">"; ":"; "034"; "/"; "092"; "|"; "?"; "*"]%char.

(** Lines 10-13. *)
Definition sanitize_filename (name : str) : str :=
  let name := re_sub (Cls forbidden) (lit "") name in
  let name := re_sub (Rep space 1 None) (lit "_") name in
  firstn 100 name.

(** ** Prices (lines 231-234)

    The price text after the selectors, made tidy.  [None] stands for the
    [IndexError] that [parts[1][0]] raises on an empty [parts[1]]; the test
    is reached only when the two first parts are equal, as [and] evaluates
    its operands in order. *)
Definition normalize_price (price : str) : option str :=
  let price := Py.strip (re_sub (Rep space 1 None) (lit " ") price) in
  let parts := Py.split price in
  match parts with
  | p0 :: p1 :: more =>
      if str_eq_dec p0 p1 then
        match p1 with
        | c :: _ =>
            if negb (Py.str_isdigit c)
            then Some (Py.join (lit " ") (p0 :: more))
            else Some price
        | [] => None
        end
      else Some price
  | _ => Some price
  end.

(** ** The loop over the product containers (lines 133-319)

    The book-keeping of [extract_product_info]: which containers are
    skipped, which folder names are taken, and the four counters.  What
    BeautifulSoup finds in a container is an input; writing the files and
    downloading the image are left out, and the model follows a run in
    which they do not raise. *)

Inductive site_type : Type :=
| Default
| Woodmart.

(** What the selectors find in one container.  [found_id]: for the default
    layout the id set by lines 143-152, [None] when [product_data["id"]] is
    left as it was; for woodmart the attribute [data-id], [None] when
    there is none (line 193).  [found_name]: the stripped text of the title
    link (lines 163-165 and 202-204), [None] when there is no title link. *)
Record container : Type := Container {
  found_id : option str;
  found_name : option str
}.

Definition na : str := lit "N/A".

(** [str(n)] for a natural number. *)
Definition decimal (n : nat) : str :=
  list_ascii_of_string (DecimalString.NilEmpty.string_of_uint (Nat.to_uint n)).

(** [product_data["id"]] when the duplicate test is reached (lines 143-154
    and 193). *)
Definition product_id (site : site_type) (index : nat) (c : container) : str :=
  match site with
  | Default =>
      let id := match found_id c with Some v => v | None => na end in
      if str_eq_dec id na then lit "TEMP_DEFAULT_" ++ decimal (index + 1) else id
  | Woodmart =>
      match found_id c with
      | Some v => v
      | None => lit "TEMP_WOODMART_" ++ decimal (index + 1)
      end
  end.

(** [product_data["name"]] *)
Definition product_name (c : container) : str :=
  match found_name c with
  | Some t => t
  | None => na
  end.

(** Line 245. *)
Definition folder_name (name id : str) : str :=
  sanitize_filename (if str_eq_dec name na then lit "product_" ++ id else name).

(** A set of strings, as the list of its elements. *)
Definition pyset : Type := list str.

Definition set_in (x : str) (s : pyset) : bool := ListSet.set_mem str_eq_dec x s.

Definition set_insert (x : str) (s : pyset) : pyset := ListSet.set_add str_eq_dec x s.

(** The variables the loop updates: the set of ids of this call, the global
    set of folder names and the counters. *)
Record loop_state : Type := LoopState {
  processed_product_ids : pyset;
  processed_product_folders : pyset;
  products_added : nat;
  products_skipped_duplicate_folder : nat;
  products_skipped_duplicate_id : nat;
  products_skipped_missing_info : nat
}.

(** One turn of the loop (lines 133-319). *)
Definition process_container (site : site_type) (st : loop_state) (index : nat)
           (c : container) : loop_state :=
  let id := product_id site index c in
  if set_in id (processed_product_ids st) then
    LoopState (processed_product_ids st) (processed_product_folders st)
              (products_added st) (products_skipped_duplicate_folder st)
              (S (products_skipped_duplicate_id st))
              (products_skipped_missing_info st)
  else
    let ids := set_insert id (processed_product_ids st) in
    let name := product_name c in
    if (if str_eq_dec name na then true else false) && Py.startswith (lit "TEMP_") id then
      LoopState ids (processed_product_folders st)
                (products_added st) (products_skipped_duplicate_folder st)
                (products_skipped_duplicate_id st)
                (S (products_skipped_missing_info st))
    else
      let product_folder_name := folder_name name id in
      if set_in product_folder_name (processed_product_folders st) then
        LoopState ids (processed_product_folders st)
                  (products_added st) (S (products_skipped_duplicate_folder st))
                  (products_skipped_duplicate_id st)
                  (products_skipped_missing_info st)
      else
        LoopState ids (set_insert product_folder_name (processed_product_folders st))
                  (S (products_added st)) (products_skipped_duplicate_folder st)
                  (products_skipped_duplicate_id st)
                  (products_skipped_missing_info st).

(** The loop: [enumerate] counts from [index]. *)
Fixpoint process_containers (site : site_type) (st : loop_state) (index : nat)
         (containers : list container) : loop_state :=
  match containers with
  | [] => st
  | c :: more => process_containers site (process_container site st index c) (S index) more
  end.

(** Lines 72-85: the names of the directories found under the base path
    are added to the global set; [None] when the base path does not
    exist. *)
Definition check_existing_folders (existing_folders : option (list str))
           (folders : pyset) : pyset :=
  match existing_folders with
  | Some dirs => ListSet.set_union str_eq_dec folders dirs
  | None => folders
  end.

(** Lines 331-337. *)
Definition reset_folder_tracking (folders : pyset) : pyset := [].

(** Lines 88-328, for a page with a known layout: the base folder exists
    after line 103, its directories [dirs] are added to the global set
    [folders], and the containers are gone through with fresh counters and
    a fresh set of ids. *)
Definition extract_product_info (dirs : list str) (site : site_type)
           (containers : list container) (folders : pyset) : loop_state :=
  process_containers site
    (LoopState [] (check_existing_folders (Some dirs) folders) 0 0 0 0)
    0 containers.

(** ** What the two patterns accept

    The words matched by the patterns, written out.  They are compared with
    the matcher in the properties below. *)

(** \d+ *)
Definition digits (w : str) : Prop := w <> [] /\ forallb digit w = true.

(** [a-zA-Z]{lo,hi} *)
Definition letters (lo hi : nat) (w : str) : Prop :=
  forallb alpha w = true /\ lo <= length w <= hi.

(** (@\dx)? *)
Definition density (w : str) : Prop :=
  w = [] \/ exists d, digit d = true /\ w = ["@"%char; d; "x"%char].

(** $: the end of the string, or just before a final newline. *)
Definition at_end (w : str) : Prop := w = [] \/ w = [newline].

(** [u] is [base], a resize suffix with an optional density marker, a dot
    and the extension [ext]: the pattern of line 62 matches [u] with
    [base] as group 1 and [ext] as group 4. *)
Inductive clean_shape (u base ext : str) : Prop :=
| CleanShape (d1 d2 dpi nl : str) :
    u = base ++ "-"%char :: d1 ++ "x"%char :: d2 ++ dpi ++ "."%char :: ext ++ nl ->
    forallb any base = true ->
    digits d1 -> digits d2 -> density dpi -> letters 3 5 ext -> at_end nl ->
    clean_shape u base ext.

(** [u] ends in a resize suffix, a dot and an extension of 3 or 4 letters:
    the pattern of line 43 is found in [u]. *)
Inductive resized_shape (u : str) : Prop :=
| ResizedShape (p d1 d2 ext nl : str) :
    u = p ++ "-"%char :: d1 ++ "x"%char :: d2 ++ "."%char :: ext ++ nl ->
    digits d1 -> digits d2 -> letters 3 4 ext -> at_end nl ->
    resized_shape u.

(** No white space in a string: what holds of every token of [split()]. *)
Definition no_space (w : str) : Prop := forallb (fun c => negb (Py.isspace c)) w = true.

(** The URL of a candidate is a token: not empty, no white space in it. *)
Definition token_url (c : candidate) : Prop := url c <> [] /\ no_space (url c).

(** The candidates the maximum is taken over (lines 45-48): those that do
    not look resized when there are any, all of them otherwise. *)
Definition pool (candidates : list candidate) : list candidate :=
  match non_resized candidates with
  | [] => candidates
  | _ :: _ => non_resized candidates
  end.


(** The length of the longest prefix of [s] made of characters of [p]. *)
Fixpoint span_len (p : ascii -> bool) (s : str) : nat :=
  match s with
  | c :: t => if p c then S (span_len p t) else 0
  | [] => 0
  end.

(** [s] with every maximal run of characters of [p] replaced by [repl];
    [inside] tells that the character before [s] belongs to a run. *)
Fixpoint squeeze (p : ascii -> bool) (repl : str) (inside : bool) (s : str) : str :=
  match s with
  | [] => []
  | c :: t =>
      if p c then (if inside then [] else repl) ++ squeeze p repl true t
      else c :: squeeze p repl false t
  end.

(** A string that [sanitize_filename] has nothing to do on. *)
Definition safe_name (w : str) : Prop :=
  forallb (fun c => negb (forbidden c) && negb (space c)) w = true /\
  length w <= 100.

(** The parts of a price that are kept: the second part is left out when
    it repeats the first and does not start with a digit. *)
Definition price_parts (parts : list str) : list str :=
  match parts with
  | p0 :: (c :: w) :: more =>
      if str_eq_dec p0 (c :: w) then
        if Py.str_isdigit c then parts else p0 :: more
      else parts
  | _ => parts
  end.

(** A srcset entry that gives no candidate and does not raise: no token,
    more than two tokens, or two tokens of which the second does not end in
    "w". *)
Definition ignored_entry (s_entry : str) : Prop :=
  match Py.split (Py.strip s_entry) with
  | [_] => False
  | [_; width_descriptor] => Py.endswith (lit "w") width_descriptor = false
  | _ => True
  end.

(** A token of [split()]: not empty, no white space in it. *)
Definition token (w : str) : Prop := w <> [] /\ no_space w.

(** A srcset entry in its usual form: the URL, a space, the width in
    decimal digits and "w". *)
Definition srcset_entry (e : str * nat) : str :=
  fst e ++ lit " " ++ decimal (snd e) ++ lit "w".

(** What can be written as such an entry and read back: the URL is a token
    without comma, the width has no more digits than [int] accepts. *)
Definition writable_entry (e : str * nat) : Prop :=
  token (fst e) /\
  forallb (fun c => negb (Ascii.eqb c ",")) (fst e) = true /\
  length (decimal (snd e)) <= Py.int_max_str_digits.

(** * Properties *)

(** ** Examples *)

Example split_on_ex :
  Py.split_on "," (lit ",a,") = [lit ""; lit "a"; lit ""].
Proof. reflexivity. Qed.

Example split_ex :
  Py.split (Py.strip (lit "  u   10w ")) = [lit "u"; lit "10w"].
Proof. reflexivity. Qed.

Example int_ex1 : Py.int (lit "1_000") = Ok 1000%Z.
Proof. reflexivity. Qed.

Example int_ex2 : Py.int (lit "-5") = Ok (-5)%Z.
Proof. reflexivity. Qed.

Example int_ex3 : Py.int (lit "aX") = Raise ValueError.
Proof. reflexivity. Qed.

Example int_ex4 : Py.int (lit "") = Raise ValueError.
Proof. reflexivity. Qed.

Example resolve_ex1 :
  get_original_image_url (Some (lit "https://x/img-300x300.jpg")) None
  = Ok (Some (lit "https://x/img.jpg")).
Proof. vm_compute. reflexivity. Qed.

Example resolve_ex2 :
  get_original_image_url None (Some (lit "https://x/a-300x300.jpg 300w, https://x/a.jpg 1000w"))
  = Ok (Some (lit "https://x/a.jpg")).
Proof. vm_compute. reflexivity. Qed.

Example resolve_ex3 :
  get_original_image_url None (Some (lit "https://x/a.jpg 1000w, https://x/bad.jpg aXw"))
  = Ok None.
Proof. vm_compute. reflexivity. Qed.


(** ** Characters *)

Lemma digit_not_alpha (c : ascii) : digit c = true -> alpha c = false.
Proof.
  unfold digit, alpha, in_range. intros H.
  apply andb_true_iff in H. destruct H as [H1 H2].
  apply Nat.leb_le in H1. apply Nat.leb_le in H2.
  apply orb_false_iff. split; apply andb_false_iff; left; apply Nat.leb_gt; lia.
Qed.

Lemma digit_any (c : ascii) : digit c = true -> any c = true.
Proof.
  unfold any. destruct (Ascii.eqb_spec c newline) as [->|]; [discriminate | reflexivity].
Qed.

Lemma alpha_any (c : ascii) : alpha c = true -> any c = true.
Proof.
  unfold any. destruct (Ascii.eqb_spec c newline) as [->|]; [discriminate | reflexivity].
Qed.

Lemma not_space_any (c : ascii) : Py.isspace c = false -> any c = true.
Proof.
  unfold any. destruct (Ascii.eqb_spec c newline) as [->|]; [discriminate | reflexivity].
Qed.

(** ** Lists split at a class boundary *)

Lemma forallb_app_true (A : Type) (p : A -> bool) (l1 l2 : list A) :
  forallb p (l1 ++ l2) = true <-> forallb p l1 = true /\ forallb p l2 = true.
Proof. rewrite forallb_app. apply andb_true_iff. Qed.

(** Two ways of cutting a list after a run of [p] that is followed by a
    character outside [p] agree. *)
Lemma run_cut_unique (p : ascii -> bool) (w1 w2 : str) (a b : ascii) (r1 r2 : str) :
  forallb p w1 = true -> forallb p w2 = true ->
  p a = false -> p b = false ->
  w1 ++ a :: r1 = w2 ++ b :: r2 ->
  w1 = w2 /\ a = b /\ r1 = r2.
Proof.
  revert w2. induction w1 as [|x w1 IH]; intros [|y w2] H1 H2 Ha Hb E; simpl in *.
  - injection E as -> ->. auto.
  - injection E as -> _. apply andb_true_iff in H2. destruct H2 as [H2 _]. congruence.
  - injection E as -> _. apply andb_true_iff in H1. destruct H1 as [H1 _]. congruence.
  - injection E as -> E. apply andb_true_iff in H1. apply andb_true_iff in H2.
    destruct H1 as [_ H1], H2 as [_ H2].
    destruct (IH w2 H1 H2 Ha Hb E) as (-> & -> & ->). auto.
Qed.

(** The same when the run reaches the end of the list on one side. *)
Lemma run_cut_end (p : ascii -> bool) (w1 w2 : str) (b : ascii) (r2 : str) :
  forallb p w1 = true -> p b = false -> w1 = w2 ++ b :: r2 -> False.
Proof.
  intros H1 Hb ->. apply forallb_app_true in H1. destruct H1 as [_ H1].
  simpl in H1. rewrite Hb in H1. discriminate.
Qed.

(** ** The matcher *)

Lemma in_rep (p : ascii -> bool) (s : str) :
  forall lo hi n n' s',
    In (n', s') (rep p lo hi n s) <->
    exists w, s = w ++ s' /\ n' = n + length w /\ forallb p w = true /\
              lo <= length w /\ (forall h, hi = Some h -> length w <= h).
Proof.
  induction s as [|c t IH]; intros lo hi n n' s'.
  - simpl. destruct (Nat.eqb_spec lo 0) as [->|Hlo]; simpl; split.
    + intros [E|[]]. injection E as <- <-. exists []. simpl.
      repeat split; auto with arith.
    + intros (w & E & -> & _). symmetry in E. apply app_eq_nil in E.
      destruct E as [-> ->]. left. simpl. f_equal. lia.
    + intros [].
    + intros (w & E & _ & _ & Hl & _). symmetry in E. apply app_eq_nil in E.
      destruct E as [-> _]. simpl in Hl. lia.
  - assert (Hstop : In (n', s') (if (lo =? 0)%nat then [(n, c :: t)] else []) <->
                    lo = 0 /\ n' = n /\ s' = c :: t).
    { destruct (Nat.eqb_spec lo 0) as [->|Hlo]; simpl; split.
      - intros [E|[]]. injection E as <- <-. auto.
      - intros (_ & -> & ->). auto.
      - intros [].
      - intros (E & _). contradiction. }
    simpl. destruct (p c && allows hi) eqn:Hpc.
    + apply andb_true_iff in Hpc. destruct Hpc as [Hp Hhi].
      rewrite in_app_iff, IH, Hstop. split.
      * intros [(w & E & -> & Hw & Hl & Hh) | (-> & -> & ->)].
        -- exists (c :: w). simpl. rewrite E, Hp, Hw. repeat split; auto; try lia.
           intros h Eh. subst hi. simpl in Hh. destruct h as [|h]; [discriminate|].
           specialize (Hh h eq_refl). lia.
        -- exists []. simpl. repeat split; auto with arith.
      * intros ([|x w] & E & -> & Hw & Hl & Hh); simpl in *.
        -- right. repeat split; auto; lia.
        -- left. injection E as <- ->. apply andb_true_iff in Hw.
           destruct Hw as [_ Hw]. exists w. repeat split; auto; try lia.
           intros h Eh. destruct hi as [h0|]; [|discriminate]. simpl in Eh.
           injection Eh as <-. specialize (Hh h0 eq_refl). lia.
    + rewrite Hstop. split.
      * intros (-> & -> & ->). exists []. simpl. repeat split; auto with arith.
      * intros ([|x w] & E & -> & Hw & Hl & Hh); simpl in *.
        -- repeat split; auto; lia.
        -- exfalso. injection E as <- ->. apply andb_true_iff in Hw.
           destruct Hw as [Hx _]. rewrite Hx in Hpc. simpl in Hpc.
           destruct hi as [[|h]|]; try discriminate.
           specialize (Hh 0 eq_refl). lia.
Qed.

Lemma in_run_lit (c : ascii) (n : nat) (s : str) (g : list (nat * str)) (st' : mstate) :
  In st' (run (Lit c) (MState n s g)) <->
  exists t, s = c :: t /\ st' = MState (S n) t g.
Proof.
  simpl. destruct s as [|x t].
  - split; [intros [] | intros (t & E & _); discriminate].
  - destruct (Ascii.eqb_spec x c) as [->|Hx]; simpl; split.
    + intros [<-|[]]. exists t. auto.
    + intros (t' & E & ->). injection E as <-. auto.
    + intros [].
    + intros (t' & E & _). injection E as -> _. contradiction.
Qed.

Lemma in_run_cls (p : ascii -> bool) (n : nat) (s : str) (g : list (nat * str))
      (st' : mstate) :
  In st' (run (Cls p) (MState n s g)) <->
  exists x t, s = x :: t /\ p x = true /\ st' = MState (S n) t g.
Proof.
  simpl. destruct s as [|x t].
  - split; [intros [] | intros (x & t & E & _); discriminate].
  - destruct (p x) eqn:Hx; simpl; split.
    + intros [<-|[]]. exists x, t. auto.
    + intros (x' & t' & E & _ & ->). injection E as <- <-. auto.
    + intros [].
    + intros (x' & t' & E & Hp & _). injection E as <- <-. congruence.
Qed.

Lemma in_run_rep (p : ascii -> bool) (lo : nat) (hi : option nat)
      (n : nat) (s : str) (g : list (nat * str)) (st' : mstate) :
  In st' (run (Rep p lo hi) (MState n s g)) <->
  exists w t, s = w ++ t /\ st' = MState (n + length w) t g /\
              forallb p w = true /\ lo <= length w /\
              (forall h, hi = Some h -> length w <= h).
Proof.
  simpl. rewrite in_map_iff. split.
  - intros ([n' s'] & <- & H). apply in_rep in H.
    destruct H as (w & E & -> & Hw & Hl & Hh). exists w, s'. simpl. auto.
  - intros (w & t & E & -> & Hw & Hl & Hh). exists (n + length w, t). split; auto.
    apply in_rep. exists w. auto.
Qed.

Lemma in_run_opt (r : regex) (st st' : mstate) :
  In st' (run (Opt r) st) <-> In st' (run r st) \/ st' = st.
Proof.
  simpl. rewrite in_app_iff. simpl. intuition.
Qed.

Lemma in_run_seq (r1 r2 : regex) (st st' : mstate) :
  In st' (run (r1 >> r2) st) <->
  exists mid, In mid (run r1 st) /\ In st' (run r2 mid).
Proof. simpl. apply in_flat_map. Qed.

Lemma in_run_grp (k : nat) (r : regex) (st st' : mstate) :
  In st' (run (Grp k r) st) <->
  exists st1, In st1 (run r st) /\
              st' = set_group k (firstn (pos st1 - pos st) (rest st)) st1.
Proof.
  simpl. rewrite in_map_iff. split; intros (st1 & H1 & H2); exists st1; auto.
Qed.

Lemma in_run_bol (n : nat) (s : str) (g : list (nat * str)) (st' : mstate) :
  In st' (run Bol (MState n s g)) <-> n = 0 /\ st' = MState n s g.
Proof.
  simpl. destruct (Nat.eqb_spec n 0) as [->|Hn]; simpl; split.
  - intros [<-|[]]. auto.
  - intros [_ ->]. auto.
  - intros [].
  - intros [E _]. contradiction.
Qed.

Lemma in_run_eol (n : nat) (s : str) (g : list (nat * str)) (st' : mstate) :
  In st' (run Eol (MState n s g)) <->
  st' = MState n s g /\ (s = [] \/ s = [newline]).
Proof.
  simpl. destruct s as [|c [|d t]].
  - simpl. split; [intros [<-|[]]; auto | intros [-> _]; auto].
  - destruct (Ascii.eqb_spec c newline) as [->|Hc]; simpl; split.
    + intros [<-|[]]. auto.
    + intros [-> _]. auto.
    + intros [].
    + intros [_ [E|E]]; [discriminate | injection E as ->; contradiction].
  - simpl. split; [intros [] | intros [_ [E|E]]; discriminate].
Qed.

Lemma firstn_span (k : nat) (w t : str) : k = length w -> firstn k (w ++ t) = w.
Proof.
  intros ->. replace (length w) with (length w + 0) by lia.
  rewrite firstn_app_2. simpl. apply app_nil_r.
Qed.

(** The first of the matches, when there is one. *)
Lemma hd_error_in (A : Type) (l : list A) (x : A) :
  In x l -> exists y, hd_error l = Some y /\ In y l.
Proof.
  destruct l as [|y l]; [intros [] | intros _; exists y; simpl; auto].
Qed.

Lemma hd_error_some_in (A : Type) (l : list A) (y : A) :
  hd_error l = Some y -> In y l.
Proof.
  destruct l as [|x l]; simpl; [discriminate | intros E; injection E as ->; auto].
Qed.

Lemma search_from_some (r : regex) (s : str) :
  forall n m, search_from r n s = Some m ->
    exists p t, s = p ++ t /\ In m (run r (MState (n + length p) t [])).
Proof.
  induction s as [|c s IH]; intros n m; simpl.
  - destruct (run r (MState n [] [])) as [|m0 l] eqn:E; [discriminate|].
    intros H. injection H as ->. exists [], []. simpl.
    rewrite Nat.add_0_r, E. simpl. auto.
  - destruct (run r (MState n (c :: s) [])) as [|m0 l] eqn:E.
    + intros H. apply IH in H. destruct H as (p & t & -> & H).
      exists (c :: p), t. simpl. split; auto.
      replace (n + S (length p)) with (S n + length p) by lia. exact H.
    + intros H. injection H as ->. exists [], (c :: s). simpl.
      rewrite Nat.add_0_r, E. simpl. auto.
Qed.

Lemma search_from_found (r : regex) (p t : str) :
  forall n m, In m (run r (MState (n + length p) t [])) ->
    exists m', search_from r n (p ++ t) = Some m'.
Proof.
  induction p as [|c p IH]; intros n m H; simpl in *.
  - rewrite Nat.add_0_r in H.
    destruct t as [|c t]; simpl;
      destruct (run r (MState n _ [])) as [|m0 l]; try contradiction; eauto.
  - destruct (run r (MState n (c :: p ++ t) [])) as [|m0 l]; [|eauto].
    apply (IH (S n) m). replace (S n + length p) with (n + S (length p)) by lia.
    exact H.
Qed.

Lemma in_run_grp_at (k : nat) (r : regex) (n : nat) (s : str) (g : list (nat * str))
      (st' : mstate) :
  In st' (run (Grp k r) (MState n s g)) <->
  exists n1 s1 g1, In (MState n1 s1 g1) (run r (MState n s g)) /\
                   st' = MState n1 s1 ((k, firstn (n1 - n) s) :: g1).
Proof.
  rewrite in_run_grp. split.
  - intros ([n1 s1 g1] & H & ->). exists n1, s1, g1. auto.
  - intros (n1 & s1 & g1 & H & ->). exists (MState n1 s1 g1). auto.
Qed.

(** Reading a membership in [run] backwards, one construct at a time. *)
Ltac run_atom H :=
  lazymatch type of H with
  | In _ (run (Lit _) _) =>
      let t := fresh "t" in
      let E := fresh "E" in
      apply in_run_lit in H; destruct H as (t & E & H); subst
  | In _ (run (Cls _) _) =>
      let x := fresh "x" in
      let t := fresh "t" in
      let E := fresh "E" in
      let Hx := fresh "Hx" in
      apply in_run_cls in H; destruct H as (x & t & E & Hx & H); subst
  | In _ (run (Rep _ _ _) _) =>
      let w := fresh "w" in
      let t := fresh "t" in
      let E := fresh "E" in
      let Hw := fresh "Hw" in
      let Hlo := fresh "Hlo" in
      let Hhi := fresh "Hhi" in
      apply in_run_rep in H; destruct H as (w & t & E & H & Hw & Hlo & Hhi); subst
  | In _ (run Bol _) =>
      let E := fresh "E" in
      apply in_run_bol in H; destruct H as (E & H); subst
  | In _ (run Eol _) =>
      let E := fresh "E" in
      apply in_run_eol in H; destruct H as (H & E); subst
  end.

(** [H : In st (run (a >> r) st0)] with [a] not a group: [a] is read and
    [H] is left about [r]. *)
Ltac run_seq H :=
  let mid := fresh "mid" in
  let H1 := fresh "H" in
  apply in_run_seq in H; destruct H as (mid & H1 & H); run_atom H1.

(** [H : In st (run (Grp k a >> r) st0)]: [Hin] is the membership for the
    inside of the group, [H] is left about [r]. *)
Ltac run_seq_grp H Hin :=
  let mid := fresh "mid" in
  let n := fresh "n" in
  let s := fresh "s" in
  let g := fresh "g" in
  let E := fresh "E" in
  apply in_run_seq in H; destruct H as (mid & Hin & H);
  apply in_run_grp_at in Hin; destruct Hin as (n & s & g & Hin & E); subst mid.

Lemma digits_intro (w : str) : forallb digit w = true -> 1 <= length w -> digits w.
Proof.
  intros Hw Hl. split; auto. intros ->. simpl in Hl. lia.
Qed.

Lemma clean_re_sound (u : str) (m : mstate) :
  In m (run clean_re (start u)) ->
  exists base ext, clean_shape u base ext /\
                   group m 1 = Some base /\ group m 4 = Some ext.
Proof.
  unfold clean_re, start. intros H.
  run_seq H. clear E.
  run_seq_grp H H1. run_atom H1. injection H1 as -> -> ->.
  rewrite firstn_span in H by lia.
  run_seq_grp H H2.
  run_seq H2. run_seq H2. run_seq H2. run_seq H2.
  run_seq H.
  run_seq_grp H H4. run_atom H4. injection H4 as -> -> ->.
  rewrite firstn_span in H by lia. run_atom H.
  clear Hhi Hhi0 Hhi1 Hlo. specialize (Hhi2 5 eq_refl).
  apply in_run_opt in H2. destruct H2 as [H2 | H2].
  - apply in_run_grp_at in H2. destruct H2 as (n3 & s3 & g3 & H2 & E3).
    run_seq H2. run_seq H2. run_atom H2.
    injection H2 as -> -> ->. injection E3 as -> <- ->.
    exists w, w2. split; [|split; reflexivity].
    apply CleanShape with (d1 := w0) (d2 := w1) (dpi := ["@"%char; x; "x"%char])
                          (nl := t1); auto using digits_intro.
    + right. eauto.
    + split; auto.
  - injection H2 as -> <- ->.
    exists w, w2. split; [|split; reflexivity].
    apply CleanShape with (d1 := w0) (d2 := w1) (dpi := []) (nl := t1);
      auto using digits_intro.
    + left. reflexivity.
    + split; auto.
Qed.

Ltac fwd_lit := apply in_run_seq; eexists; split;
  [apply in_run_lit; eexists; split; reflexivity|].
Ltac fwd_rep w := apply in_run_seq; eexists; split;
  [apply in_run_rep; exists w; eexists; split; [reflexivity|]; split; [reflexivity|] |].

Lemma clean_re_complete (u base ext : str) :
  clean_shape u base ext -> exists m, In m (run clean_re (start u)).
Proof.
  intros [d1 d2 dpi nl -> Hbase [N1 H1] [N2 H2] Hdpi [Hext [L3 L5]] Hnl].
  assert (G1 : 1 <= length d1) by (destruct d1; [contradiction | simpl; lia]).
  assert (G2 : 1 <= length d2) by (destruct d2; [contradiction | simpl; lia]).
  assert (Hrep : forall (p : ascii -> bool) (w : str) (lo : nat),
             forallb p w = true -> lo <= length w ->
             forallb p w = true /\ lo <= length w /\
             (forall h, @None nat = Some h -> length w <= h)).
  { intros p w lo Hp Hl. repeat split; auto. discriminate. }
  unfold clean_re, start.
  destruct Hdpi as [-> | (d & Hd & ->)]; eexists.
  all: apply in_run_seq; eexists; (split; [apply in_run_bol; split; reflexivity|]).
  all: apply in_run_seq; eexists; split;
    [ apply in_run_grp_at; do 3 eexists; (split; [|reflexivity]);
      apply in_run_rep; exists base; eexists; (split; [reflexivity|]);
      (split; [reflexivity|]); apply Hrep; auto with arith | ].
  all: apply in_run_seq; eexists; split;
    [ apply in_run_grp_at; do 3 eexists; (split; [|reflexivity]);
      fwd_lit; fwd_rep d1; [apply Hrep; auto|];
      fwd_lit; fwd_rep d2; [apply Hrep; auto|];
      apply in_run_opt | ].
  - right. reflexivity.
  - fwd_lit. apply in_run_seq. eexists. split.
    + apply in_run_grp_at. do 3 eexists. split; [|reflexivity].
      apply in_run_rep. exists ext. eexists. split; [reflexivity|].
      split; [reflexivity|]. repeat split; auto.
      intros h E. injection E as <-. auto.
    + apply in_run_eol. split; [reflexivity | exact Hnl].
  - left. apply in_run_grp_at. do 3 eexists. split; [|reflexivity].
    simpl app.
    fwd_lit. apply in_run_seq. eexists. split.
    { apply in_run_cls. do 2 eexists. split; [reflexivity|]. split; [exact Hd|reflexivity]. }
    apply in_run_lit. eexists. split; reflexivity.
  - fwd_lit. apply in_run_seq. eexists. split.
    + apply in_run_grp_at. do 3 eexists. split; [|reflexivity].
      apply in_run_rep. exists ext. eexists. split; [reflexivity|].
      split; [reflexivity|]. repeat split; auto.
      intros h E. injection E as <-. auto.
    + apply in_run_eol. split; [reflexivity | exact Hnl].
Qed.


Lemma forallb_rev (A : Type) (p : A -> bool) (l : list A) :
  forallb p l = true -> forallb p (rev l) = true.
Proof.
  intros H. apply forallb_forall. intros x Hx. apply in_rev in Hx.
  revert x Hx. apply forallb_forall. exact H.
Qed.

Lemma rev_inj (A : Type) (l1 l2 : list A) : rev l1 = rev l2 -> l1 = l2.
Proof.
  intros E. rewrite <- (rev_involutive l1), <- (rev_involutive l2), E. reflexivity.
Qed.

(** The end of a shape read backwards: the extension and what [$] leaves. *)
Lemma ext_end_unique (e1 n1 e2 n2 r1 r2 : str) :
  forallb alpha e1 = true -> forallb alpha e2 = true ->
  at_end n1 -> at_end n2 ->
  e1 <> [] -> e2 <> [] ->
  rev n1 ++ rev e1 ++ "."%char :: r1 = rev n2 ++ rev e2 ++ "."%char :: r2 ->
  e1 = e2 /\ r1 = r2.
Proof.
  intros H1 H2 A1 A2 N1 N2 E.
  assert (K : forall e r, forallb alpha e = true -> e <> [] ->
              exists c t, rev e ++ "."%char :: r = c :: t /\ alpha c = true).
  { intros e r He Ne. apply forallb_rev in He.
    destruct (rev e) as [|c t] eqn:Er.
    - apply (f_equal (@rev ascii)) in Er. rewrite rev_involutive in Er. contradiction.
    - exists c, (t ++ "."%char :: r). simpl in He. apply andb_true_iff in He.
      destruct He as [Hc _]. auto. }
  assert (E' : rev e1 ++ "."%char :: r1 = rev e2 ++ "."%char :: r2).
  { destruct A1 as [-> | ->], A2 as [-> | ->]; simpl in E; auto.
    - destruct (K e1 r1 H1 N1) as (c & t & Ec & Hc). rewrite Ec in E.
      injection E as -> _. discriminate.
    - destruct (K e2 r2 H2 N2) as (c & t & Ec & Hc). rewrite Ec in E.
      injection E as <- _. discriminate.
    - injection E as E. exact E. }
  destruct (run_cut_unique alpha (rev e1) (rev e2) "." "." r1 r2) as (Ee & _ & Er);
    auto using forallb_rev.
  split; [apply rev_inj; exact Ee | exact Er].
Qed.

(** The resize suffix read backwards. *)
Lemma dims_unique (d1 d2 d1' d2' r r' : str) :
  forallb digit d1 = true -> forallb digit d2 = true ->
  forallb digit d1' = true -> forallb digit d2' = true ->
  rev d2 ++ "x"%char :: rev d1 ++ "-"%char :: r =
  rev d2' ++ "x"%char :: rev d1' ++ "-"%char :: r' ->
  r = r'.
Proof.
  intros H1 H2 H1' H2' E.
  apply run_cut_unique with (p := digit) in E; auto using forallb_rev.
  destruct E as (_ & _ & E).
  apply run_cut_unique with (p := digit) in E; auto using forallb_rev.
  destruct E as (_ & _ & E). exact E.
Qed.

Lemma rev_digits_head (d r : str) :
  digits d -> exists c t, rev d ++ r = c :: t /\ digit c = true.
Proof.
  intros [N H]. apply forallb_rev in H.
  destruct (rev d) as [|c t] eqn:Er.
  - apply (f_equal (@rev ascii)) in Er. rewrite rev_involutive in Er. contradiction.
  - exists c, (t ++ r). simpl in H. apply andb_true_iff in H. destruct H as [Hc _]. auto.
Qed.

Lemma clean_shape_unique (u b1 e1 b2 e2 : str) :
  clean_shape u b1 e1 -> clean_shape u b2 e2 -> b1 = b2 /\ e1 = e2.
Proof.
  intros [d1 d2 dpi nl -> Hb [N1 H1] [N2 H2] Hdpi [He [L3 L5]] Hnl].
  intros [d1' d2' dpi' nl' E Hb' [N1' H1'] [N2' H2'] Hdpi' [He' [L3' L5']] Hnl'].
  apply (f_equal (@rev ascii)) in E.
  repeat (rewrite ?rev_app_distr in E; simpl in E; rewrite <- ?app_assoc in E; simpl in E).
  apply ext_end_unique in E; auto;
    try (intros ->; simpl in *; lia).
  destruct E as [<- E]. split; [|reflexivity].
  apply rev_inj.
  destruct Hdpi as [-> | (d & Hd & ->)], Hdpi' as [-> | (d' & Hd' & ->)]; simpl in E.
  - eapply dims_unique; [| | | | exact E]; auto.
  - exfalso. destruct (@rev_digits_head d2 ("x"%char :: rev d1 ++ "-"%char :: rev b1) (conj N2 H2))
      as (c & t & Ec & Hc).
    rewrite Ec in E. injection E as -> _. discriminate.
  - exfalso. destruct (@rev_digits_head d2' ("x"%char :: rev d1' ++ "-"%char :: rev b2) (conj N2' H2'))
      as (c & t & Ec & Hc).
    rewrite Ec in E. injection E as <- _. discriminate.
  - injection E as _ E. eapply dims_unique; [| | | | exact E]; auto.
Qed.


(** ** The cleaning pattern and the shape it accepts *)

Lemma re_match_clean (u base ext : str) :
  clean_shape u base ext ->
  exists m, re_match clean_re u = Some m /\
            group m 1 = Some base /\ group m 4 = Some ext.
Proof.
  intros Hs. destruct (clean_re_complete Hs) as (m0 & H0).
  destruct (hd_error_in _ _ H0) as (m & Hm & Hin).
  exists m. split; [exact Hm|].
  destruct (clean_re_sound _ _ Hin) as (b & e & Hs' & G1 & G4).
  destruct (clean_shape_unique Hs Hs') as [-> ->]. auto.
Qed.

Lemma re_match_clean_shape (u : str) (m : mstate) :
  re_match clean_re u = Some m ->
  exists base ext, clean_shape u base ext /\
                   group m 1 = Some base /\ group m 4 = Some ext.
Proof.
  intros H. apply clean_re_sound. apply hd_error_some_in. exact H.
Qed.

Lemma clean_url_shape (u base ext : str) :
  clean_shape u base ext -> clean_url u = base ++ "."%char :: ext.
Proof.
  intros Hs. destruct (re_match_clean Hs) as (m & Hm & G1 & G4).
  unfold clean_url. rewrite Hm, G1, G4. reflexivity.
Qed.

Lemma clean_url_no_shape (u : str) :
  (forall base ext, ~ clean_shape u base ext) -> clean_url u = u.
Proof.
  intros Hn. unfold clean_url.
  destruct (re_match clean_re u) as [m|] eqn:Hm; [|reflexivity].
  destruct (re_match_clean_shape _ Hm) as (b & e & Hs & _). destruct (Hn b e Hs).
Qed.

Lemma clean_url_cases (u : str) :
  (exists base ext, clean_shape u base ext /\ clean_url u = base ++ "."%char :: ext) \/
  ((forall base ext, ~ clean_shape u base ext) /\ clean_url u = u).
Proof.
  unfold clean_url.
  destruct (re_match clean_re u) as [m|] eqn:Hm.
  - left. destruct (re_match_clean_shape _ Hm) as (b & e & Hs & G1 & G4).
    exists b, e. rewrite G1, G4. auto.
  - right. split; [|reflexivity]. intros b e Hs.
    destruct (re_match_clean Hs) as (m & Hm' & _). congruence.
Qed.

(** ** The filter pattern and the shape it accepts *)

Lemma looks_resized_shape (u : str) :
  looks_resized u = true <-> resized_shape u.
Proof.
  unfold looks_resized, re_search. split.
  - destruct (search_from resized_re 0 u) as [m|] eqn:Hm; [intros _ | discriminate].
    apply search_from_some in Hm. destruct Hm as (p & t & -> & H).
    unfold resized_re in H.
    run_seq H. run_seq H. run_seq H. run_seq H. run_seq H. run_seq H. run_atom H.
    eapply ResizedShape; [reflexivity | | | | eassumption];
      auto using digits_intro.
    split; auto.
  - intros [p d1 d2 ext nl -> [N1 H1] [N2 H2] [He [L3 L4]] Hnl].
    assert (G1 : 1 <= length d1) by (destruct d1; [contradiction | simpl; lia]).
    assert (G2 : 1 <= length d2) by (destruct d2; [contradiction | simpl; lia]).
    assert (Hin : exists m, In m (run resized_re (MState (0 + length p)
              ("-"%char :: d1 ++ "x"%char :: d2 ++ "."%char :: ext ++ nl) []))).
    { unfold resized_re. eexists.
      fwd_lit. fwd_rep d1; [repeat split; auto; discriminate|].
      fwd_lit. fwd_rep d2; [repeat split; auto; discriminate|].
      fwd_lit. fwd_rep ext.
      - repeat split; auto. intros h E. injection E as <-. exact L4.
      - apply in_run_eol. split; [reflexivity | exact Hnl]. }
    destruct Hin as (m & Hin).
    destruct (search_from_found _ _ _ _ _ Hin) as (m' & ->). reflexivity.
Qed.

Lemma looks_resized_false (u : str) :
  looks_resized u = false <-> ~ resized_shape u.
Proof.
  rewrite <- looks_resized_shape. destruct (looks_resized u); split; congruence.
Qed.


(** ** Tokens of [split()] *)

Lemma split_ws_from_tokens (s : str) :
  forall cur tok, no_space cur -> In tok (Py.split_ws_from cur s) ->
    tok <> [] /\ no_space tok.
Proof.
  assert (Hcur : forall (c : ascii) (cur : str), no_space (c :: cur) ->
                  rev (c :: cur) <> [] /\ no_space (rev (c :: cur))).
  { intros c cur H. split; [|apply forallb_rev; exact H].
    simpl. intros E. apply app_eq_nil in E. destruct E as [_ E]. discriminate. }
  induction s as [|c t IH]; intros cur tok Hc; simpl.
  - destruct cur as [|x cur]; [intros [] | intros [<-|[]]; auto].
  - destruct (Py.isspace c) eqn:Hs.
    + destruct cur as [|x cur].
      * apply IH. reflexivity.
      * intros [<-|H]; [auto | apply (IH [] tok); [reflexivity | exact H]].
    + apply IH. unfold no_space. simpl. rewrite Hs. exact Hc.
Qed.

Lemma split_tokens (s tok : str) :
  In tok (Py.split s) -> tok <> [] /\ no_space tok.
Proof. apply split_ws_from_tokens. reflexivity. Qed.

(** ** Candidates read from a srcset *)

Lemma parse_entry_urls (cands cands' : list candidate) (s_entry : str) :
  Forall token_url cands -> parse_entry cands s_entry = Ok cands' ->
  Forall token_url cands'.
Proof.
  unfold parse_entry. intros Hc.
  pose proof (@split_tokens (Py.strip s_entry)) as Ht.
  destruct (Py.split (Py.strip s_entry)) as [|u [|wd [|x parts]]].
  - intros E. injection E as <-. exact Hc.
  - intros E. injection E as <-. apply Forall_app. split; [exact Hc|].
    constructor; [|constructor]. apply Ht. simpl. auto.
  - destruct (Py.endswith (lit "w") wd).
    + destruct (Py.int (Py.drop_last wd)) as [w|e]; simpl; [|discriminate].
      intros E. injection E as <-. apply Forall_app. split; [exact Hc|].
      constructor; [|constructor]. apply Ht. simpl. auto.
    + intros E. injection E as <-. exact Hc.
  - intros E. injection E as <-. exact Hc.
Qed.

Lemma parse_entries_urls (entries : list str) :
  forall cands cands', Forall token_url cands ->
    parse_entries cands entries = Ok cands' -> Forall token_url cands'.
Proof.
  induction entries as [|s_entry more IH]; intros cands cands' Hc; simpl.
  - intros E. injection E as <-. exact Hc.
  - destruct (parse_entry cands s_entry) as [c1|e] eqn:E1; simpl; [|discriminate].
    apply IH. eapply parse_entry_urls; eauto.
Qed.

Lemma parse_srcset_urls (s : str) (cands : list candidate) :
  parse_srcset s = Ok cands -> Forall token_url cands.
Proof. apply parse_entries_urls. constructor. Qed.

Lemma parse_srcset_nil : parse_srcset [] = Ok [].
Proof. reflexivity. Qed.


(** ** [max] with a key *)

Section MaxBy.
Variable A : Type.
Variable key : A -> Z.

Let pick (best y : A) : A := if (key best <? key y)%Z then y else best.

Lemma fold_pick_stays (l : list A) (c : A) :
  (forall y, In y l -> (key y <= key c)%Z) -> fold_left pick l c = c.
Proof.
  induction l as [|y l IH]; intros H; simpl; [reflexivity|].
  unfold pick at 2. destruct (Z.ltb_spec (key c) (key y)) as [Hlt|Hge].
  - specialize (H y (or_introl eq_refl)). lia.
  - apply IH. intros z Hz. apply H. right. exact Hz.
Qed.

Lemma fold_pick_first (l1 l2 : list A) (c : A) :
  forall x, (key x < key c)%Z ->
    (forall y, In y l1 -> (key y < key c)%Z) ->
    (forall y, In y l2 -> (key y <= key c)%Z) ->
    fold_left pick (l1 ++ c :: l2) x = c.
Proof.
  induction l1 as [|y l1 IH]; intros x Hx H1 H2; simpl.
  - unfold pick at 2. destruct (Z.ltb_spec (key x) (key c)); [|lia].
    apply fold_pick_stays. exact H2.
  - apply IH; auto.
    + unfold pick. destruct (Z.ltb_spec (key x) (key y)); auto.
      apply H1. left. reflexivity.
    + intros z Hz. apply H1. right. exact Hz.
Qed.

(** [max] returns the first element that no other exceeds. *)
Lemma max_by_first (l1 l2 : list A) (c : A) :
  (forall y, In y l1 -> (key y < key c)%Z) ->
  (forall y, In y l2 -> (key y <= key c)%Z) ->
  Py.max_by key (l1 ++ c :: l2) = Ok c.
Proof.
  intros H1 H2. destruct l1 as [|x l1]; simpl; f_equal.
  - apply fold_pick_stays. exact H2.
  - apply fold_pick_first; auto.
    + apply H1. left. reflexivity.
    + intros y Hy. apply H1. right. exact Hy.
Qed.

Lemma fold_pick_spec (l : list A) :
  forall x r, fold_left pick l x = r ->
  exists l1 l2,
    x :: l = l1 ++ r :: l2 /\
    (forall y, In y l1 -> (key y < key r)%Z) /\
    (forall y, In y l2 -> (key y <= key r)%Z).
Proof.
  induction l as [|y l IH]; intros x r; simpl.
  - intros <-. exists [], []. simpl. repeat split; intros y [].
  - unfold pick at 2. destruct (Z.ltb_spec (key x) (key y)) as [Hlt|Hge]; intros Hr.
    + destruct (IH y r Hr) as (l1 & l2 & E & H1 & H2).
      exists (x :: l1), l2. simpl. rewrite <- E. split; [reflexivity|].
      split; [|exact H2]. intros z [<-|Hz]; [|auto].
      destruct l1 as [|y' l1]; simpl in E; injection E as E0 E.
      * rewrite <- E0. exact Hlt.
      * subst y'. specialize (H1 y (or_introl eq_refl)). lia.
    + destruct (IH x r Hr) as (l1 & l2 & E & H1 & H2).
      destruct l1 as [|x' l1]; simpl in E; injection E as E0 E.
      * exists [], (y :: l). simpl. rewrite <- E0. split; [reflexivity|].
        split; [intros z []|]. intros z [<-|Hz]; [exact Hge|].
        rewrite E0. apply H2. rewrite <- E. exact Hz.
      * subst x'. exists (x :: y :: l1), l2. simpl. rewrite <- E.
        split; [reflexivity|]. split; [|exact H2].
        intros z [<-|[<-|Hz]].
        -- apply H1. left. reflexivity.
        -- specialize (H1 x (or_introl eq_refl)). lia.
        -- apply H1. right. exact Hz.
Qed.

(** On a list that is not empty [max] returns an element of it, of the
    largest key, and the first such. *)
Lemma max_by_spec (l : list A) :
  l <> [] ->
  exists c l1 l2, Py.max_by key l = Ok c /\ l = l1 ++ c :: l2 /\
    (forall y, In y l1 -> (key y < key c)%Z) /\
    (forall y, In y l2 -> (key y <= key c)%Z).
Proof.
  destruct l as [|x l]; [contradiction | intros _].
  destruct (@fold_pick_spec l x _ eq_refl) as (l1 & l2 & E & H1 & H2).
  exists (fold_left pick l x), l1, l2. simpl. auto.
Qed.

Lemma max_by_in_max (l : list A) :
  l <> [] ->
  exists c, Py.max_by key l = Ok c /\ In c l /\
            (forall y, In y l -> (key y <= key c)%Z).
Proof.
  intros Hl. destruct (max_by_spec Hl) as (c & l1 & l2 & E & -> & H1 & H2).
  exists c. split; [exact E|]. split; [apply in_elt|].
  intros y Hy. apply in_app_iff in Hy. destruct Hy as [Hy|[<-|Hy]].
  - specialize (H1 y Hy). lia.
  - lia.
  - auto.
Qed.
End MaxBy.


(** ** The choice among the candidates *)

(** The first candidate of largest width in [pool] is the one chosen. *)
Lemma choose_first_max (cands l1 l2 : list candidate) (c : candidate) :
  pool cands = l1 ++ c :: l2 ->
  (forall y, In y l1 -> (width y < width c)%Z) ->
  (forall y, In y l2 -> (width y <= width c)%Z) ->
  choose cands = Ok (Some (url c)).
Proof.
  unfold pool, choose. intros E H1 H2.
  destruct cands as [|c0 cands].
  - simpl in E. destruct l1; discriminate.
  - destruct (non_resized (c0 :: cands)) as [|n0 nr];
      rewrite E, (max_by_first width l1 l2 c H1 H2); reflexivity.
Qed.

Lemma choose_spec (cands : list candidate) :
  cands <> [] ->
  exists c, choose cands = Ok (Some (url c)) /\ In c (pool cands) /\
            (forall y, In y (pool cands) -> (width y <= width c)%Z).
Proof.
  intros Hc. assert (Hp : pool cands <> []).
  { unfold pool. destruct (non_resized cands); [exact Hc | discriminate]. }
  destruct (max_by_in_max width Hp) as (c & E & Hin & Hmax).
  exists c. split; [|auto].
  unfold pool in E. unfold choose. destruct cands as [|c0 cands]; [contradiction|].
  destruct (non_resized (c0 :: cands)); rewrite E; reflexivity.
Qed.

Lemma choose_nil : choose [] = Ok None.
Proof. reflexivity. Qed.

Lemma pool_incl (cands : list candidate) (c : candidate) :
  In c (pool cands) -> In c cands.
Proof.
  unfold pool, non_resized. destruct (filter _ cands) eqn:E; [auto|].
  rewrite <- E. intros H. apply filter_In in H. tauto.
Qed.

(** ** From the srcset to the result *)

Lemma resolve_chosen (image_url : option str) (s : str) (cands : list candidate)
      (u : str) :
  parse_srcset s = Ok cands -> choose cands = Ok (Some u) -> u <> [] ->
  get_original_image_url image_url (Some s) = Ok (Some (clean_url u)).
Proof.
  intros Hp Hc Hu. destruct s as [|a s].
  - rewrite parse_srcset_nil in Hp. injection Hp as <-. discriminate.
  - unfold get_original_image_url, working_url, srcset_best.
    rewrite Hp. simpl bind at 2. rewrite Hc.
    destruct u as [|b u]; [contradiction|].
    simpl. rewrite andb_false_r. reflexivity.
Qed.

(** Without a usable srcset the result is that of the [src] alone. *)
Lemma resolve_src_only (image_url : option str) :
  get_original_image_url image_url None =
  match image_url with
  | Some (c :: u) => Ok (Some (clean_url (c :: u)))
  | _ => Ok None
  end.
Proof. destruct image_url as [[|c u]|]; reflexivity. Qed.

Lemma resolve_fallback (image_url : option str) (s : str) :
  (exists e, srcset_best s = Raise e) \/ srcset_best s = Ok None ->
  get_original_image_url image_url (Some s) = get_original_image_url image_url None.
Proof.
  intros H. rewrite resolve_src_only.
  unfold get_original_image_url, working_url.
  destruct s as [|a s].
  - destruct image_url as [[|c u]|]; reflexivity.
  - assert (E : try_except (srcset_best (a :: s)) (fun _ => Ok None) = Ok None).
    { destruct H as [(e & ->) | ->]; reflexivity. }
    rewrite E. destruct image_url as [[|c u]|]; reflexivity.
Qed.




Lemma resolve_working (image_url srcset_str : option str) (c : ascii) (u : str) :
  working_url image_url srcset_str = Ok (Some (c :: u)) ->
  get_original_image_url image_url srcset_str = Ok (Some (clean_url (c :: u))).
Proof.
  intros H. unfold get_original_image_url. rewrite H. simpl.
  destruct (negb (Py.truthy image_url) && negb (Py.truthy srcset_str)) eqn:E;
    [|reflexivity].
  exfalso. apply andb_true_iff in E. destruct E as [Ei Es].
  unfold working_url in H.
  destruct srcset_str as [[|a s]|]; try discriminate;
    destruct image_url as [[|b v]|]; discriminate.
Qed.

(** ** Suffix cleaning *)

(** C1.  Whatever the working URL is (the URL chosen from the srcset, or
    the [src] input), when it has the shape the pattern of line 62 accepts
    the result is the base name, a dot and the extension, and when it has
    not the result is the working URL itself.  The two examples of the
    specification follow. *)
Theorem suffix_cleaning_of_working_url :
  (forall (image_url srcset_str : option str) (c : ascii) (u : str),
      working_url image_url srcset_str = Ok (Some (c :: u)) ->
      (forall base ext, clean_shape (c :: u) base ext ->
         get_original_image_url image_url srcset_str
         = Ok (Some (base ++ lit "." ++ ext))) /\
      ((forall base ext, ~ clean_shape (c :: u) base ext) ->
         get_original_image_url image_url srcset_str = Ok (Some (c :: u)))) /\
  get_original_image_url (Some (lit "https://x/img-300x300.jpg")) None
  = Ok (Some (lit "https://x/img.jpg")) /\
  get_original_image_url (Some (lit "https://x/img.jpg")) None
  = Ok (Some (lit "https://x/img.jpg")).
Proof.
  split; [|split; vm_compute; reflexivity].
  intros image_url srcset_str c u H. rewrite (resolve_working _ _ H). split.
  - intros base ext Hs. rewrite (clean_url_shape Hs). reflexivity.
  - intros Hn. rewrite (clean_url_no_shape Hn). reflexivity.
Qed.

Lemma suffix_cleaning_of_working_url_witness :
  get_original_image_url (Some (lit "https://x/img-300x300.jpg")) None
  = Ok (Some (lit "https://x/img" ++ lit "." ++ lit "jpg")).
Proof.
  refine (proj1 (proj1 suffix_cleaning_of_working_url
                   (Some (lit "https://x/img-300x300.jpg")) None
                   "h"%char (lit "ttps://x/img-300x300.jpg") eq_refl)
                (lit "https://x/img") (lit "jpg") _).
  apply CleanShape with (d1 := lit "300") (d2 := lit "300") (dpi := []) (nl := []).
  - reflexivity.
  - reflexivity.
  - split; [discriminate | reflexivity].
  - split; [discriminate | reflexivity].
  - left. reflexivity.
  - split; [reflexivity | simpl; lia].
  - left. reflexivity.
Defined.

(** ** Choice of the candidate *)

Lemma pool_token_url (s : str) (cands : list candidate) (c : candidate) :
  parse_srcset s = Ok cands -> In c (pool cands) -> url c <> [].
Proof.
  intros Hp Hin. apply pool_incl in Hin.
  pose proof (parse_srcset_urls _ Hp) as Hall.
  rewrite Forall_forall in Hall. apply (Hall c Hin).
Qed.

Lemma pool_non_resized (cands : list candidate) :
  non_resized cands <> [] -> pool cands = non_resized cands.
Proof. unfold pool. destruct (non_resized cands); [contradiction | reflexivity]. Qed.

Lemma pool_all_resized (cands : list candidate) :
  (forall y, In y cands -> looks_resized (url y) = true) -> pool cands = cands.
Proof.
  intros H. unfold pool, non_resized.
  destruct (filter _ cands) as [|c l] eqn:E; [reflexivity|].
  assert (Hc : In c (filter (fun c => negb (looks_resized (url c))) cands))
    by (rewrite E; left; reflexivity).
  apply filter_In in Hc. destruct Hc as [Hc Hn].
  rewrite (H c Hc) in Hn. discriminate.
Qed.

Lemma in_non_resized (cands : list candidate) (c : candidate) :
  In c (non_resized cands) <-> In c cands /\ ~ resized_shape (url c).
Proof.
  unfold non_resized. rewrite filter_In, negb_true_iff, looks_resized_false.
  tauto.
Qed.

(** C2.  When the srcset gives candidates and the URL of some of them does
    not end in a resize suffix, a dot and an extension of 3 or 4 letters,
    the result comes from one of those: the candidate taken has no such
    ending itself, no candidate without such an ending is wider, and the
    result is its URL, cleaned.  The candidates with a resize suffix play no
    part, whatever widths they declare.  For the srcset of the specification
    the result is "https://x/a.jpg" for every [src]; so it is when the
    resized-looking candidate is the wider; and when the wider,
    resized-looking candidate is another image, the narrower one without
    suffix is still the result. *)
Theorem non_resized_candidates_preferred :
  (forall (image_url : option str) (s : str) (cands : list candidate),
      parse_srcset s = Ok cands ->
      (exists c0, In c0 cands /\ ~ resized_shape (url c0)) ->
      exists c, In c cands /\
                ~ resized_shape (url c) /\
                (forall y, In y cands -> ~ resized_shape (url y) ->
                           (width y <= width c)%Z) /\
                get_original_image_url image_url (Some s)
                = Ok (Some (clean_url (url c)))) /\
  (forall image_url : option str,
      get_original_image_url image_url
        (Some (lit "https://x/a-300x300.jpg 300w, https://x/a.jpg 1000w"))
      = Ok (Some (lit "https://x/a.jpg"))) /\
  (forall image_url : option str,
      get_original_image_url image_url
        (Some (lit "https://x/a-3000x3000.jpg 3000w, https://x/a.jpg 1000w"))
      = Ok (Some (lit "https://x/a.jpg"))) /\
  (forall image_url : option str,
      get_original_image_url image_url
        (Some (lit "https://x/a-3000x3000.jpg 3000w, https://x/b.jpg 1000w"))
      = Ok (Some (lit "https://x/b.jpg"))).
Proof.
  split; [|split; [|split]].
  - intros image_url s cands Hp (c0 & Hin0 & Hn0).
    assert (Hn : non_resized cands <> []).
    { intros E. assert (H : In c0 (non_resized cands))
        by (apply in_non_resized; auto).
      rewrite E in H. destruct H. }
    assert (Hc : cands <> []) by (intros ->; destruct Hin0).
    destruct (choose_spec Hc) as (c & Ec & Hin & Hmax).
    rewrite (@pool_non_resized cands Hn) in Hin, Hmax.
    pose proof Hin as Hin'. apply in_non_resized in Hin'. destruct Hin' as [Hc1 Hc2].
    exists c. split; [exact Hc1|]. split; [exact Hc2|]. split.
    + intros y Hy Hny. apply Hmax. apply in_non_resized. auto.
    + apply resolve_chosen with (cands := cands); auto.
      apply (@pool_token_url s cands c Hp).
      rewrite (@pool_non_resized cands Hn). exact Hin.
  - intros image_url.
    rewrite resolve_chosen with
      (cands := [Candidate (lit "https://x/a-300x300.jpg") 300;
                 Candidate (lit "https://x/a.jpg") 1000])
      (u := lit "https://x/a.jpg"); try (vm_compute; reflexivity).
    discriminate.
  - intros image_url.
    rewrite resolve_chosen with
      (cands := [Candidate (lit "https://x/a-3000x3000.jpg") 3000;
                 Candidate (lit "https://x/a.jpg") 1000])
      (u := lit "https://x/a.jpg"); try (vm_compute; reflexivity).
    discriminate.
  - intros image_url.
    rewrite resolve_chosen with
      (cands := [Candidate (lit "https://x/a-3000x3000.jpg") 3000;
                 Candidate (lit "https://x/b.jpg") 1000])
      (u := lit "https://x/b.jpg"); try (vm_compute; reflexivity).
    discriminate.
Qed.

Lemma non_resized_candidates_preferred_witness :
  exists c,
    In c [Candidate (lit "https://x/a-3000x3000.jpg") 3000;
          Candidate (lit "https://x/b.jpg") 1000] /\
    ~ resized_shape (url c) /\
    (forall y, In y [Candidate (lit "https://x/a-3000x3000.jpg") 3000;
                     Candidate (lit "https://x/b.jpg") 1000] ->
               ~ resized_shape (url y) -> (width y <= width c)%Z) /\
    get_original_image_url None
      (Some (lit "https://x/a-3000x3000.jpg 3000w, https://x/b.jpg 1000w"))
    = Ok (Some (clean_url (url c))).
Proof.
  apply (proj1 non_resized_candidates_preferred None
           (lit "https://x/a-3000x3000.jpg 3000w, https://x/b.jpg 1000w")).
  - vm_compute. reflexivity.
  - exists (Candidate (lit "https://x/b.jpg") 1000). split.
    + right. left. reflexivity.
    + apply looks_resized_false. vm_compute. reflexivity.
Defined.

Lemma no_space_any (w : str) : no_space w -> forallb any w = true.
Proof.
  unfold no_space. intros H. apply forallb_forall. intros c Hc.
  rewrite forallb_forall in H. specialize (H c Hc).
  apply not_space_any. apply negb_true_iff. exact H.
Qed.

(** A token that looks resized has the shape the cleaning accepts. *)
Lemma resized_token_clean_shape (u : str) :
  no_space u -> looks_resized u = true ->
  exists base ext, clean_shape u base ext.
Proof.
  intros Hu H. apply looks_resized_shape in H.
  destruct H as [p d1 d2 ext nl E D1 D2 [He [L3 L4]] Hnl].
  exists p, ext. apply CleanShape with (d1 := d1) (d2 := d2) (dpi := []) (nl := nl);
    auto.
  - subst u. unfold no_space in Hu. apply forallb_app_true in Hu.
    apply no_space_any. apply Hu.
  - left. reflexivity.
  - split; [exact He | lia].
Qed.

(** C3.  When every candidate of the srcset looks resized, the result is
    the URL of a candidate of largest width among all of them with its
    resize suffix removed.  For the srcset of the specification the result
    is "https://x/a.jpg" for every [src]. *)
Theorem all_resized_widest_then_cleaned :
  (forall (image_url : option str) (s : str) (cands : list candidate),
      parse_srcset s = Ok cands ->
      cands <> [] ->
      (forall y, In y cands -> looks_resized (url y) = true) ->
      exists c base ext,
        In c cands /\
        (forall y, In y cands -> (width y <= width c)%Z) /\
        clean_shape (url c) base ext /\
        get_original_image_url image_url (Some s)
        = Ok (Some (base ++ lit "." ++ ext))) /\
  (forall image_url : option str,
      get_original_image_url image_url
        (Some (lit "https://x/a-300x300.jpg 300w, https://x/a-800x800.jpg 800w"))
      = Ok (Some (lit "https://x/a.jpg"))).
Proof.
  split.
  - intros image_url s cands Hp Hc Hall.
    destruct (choose_spec Hc) as (c & Ec & Hin & Hmax).
    rewrite (pool_all_resized _ Hall) in Hin, Hmax.
    pose proof (parse_srcset_urls _ Hp) as Htok.
    rewrite Forall_forall in Htok. destruct (Htok c Hin) as [Hne Hns].
    destruct (resized_token_clean_shape Hns (Hall c Hin)) as (base & ext & Hs).
    exists c, base, ext. repeat split; auto.
    rewrite (resolve_chosen image_url _ Hp Ec Hne), (clean_url_shape Hs). reflexivity.
  - intros image_url.
    rewrite resolve_chosen with
      (cands := [Candidate (lit "https://x/a-300x300.jpg") 300;
                 Candidate (lit "https://x/a-800x800.jpg") 800])
      (u := lit "https://x/a-800x800.jpg"); try (vm_compute; reflexivity).
    discriminate.
Qed.

Lemma all_resized_widest_then_cleaned_witness :
  exists c base ext,
    In c [Candidate (lit "https://x/a-300x300.jpg") 300;
          Candidate (lit "https://x/a-800x800.jpg") 800] /\
    (forall y, In y [Candidate (lit "https://x/a-300x300.jpg") 300;
                     Candidate (lit "https://x/a-800x800.jpg") 800] ->
               (width y <= width c)%Z) /\
    clean_shape (url c) base ext /\
    get_original_image_url None
      (Some (lit "https://x/a-300x300.jpg 300w, https://x/a-800x800.jpg 800w"))
    = Ok (Some (base ++ lit "." ++ ext)).
Proof.
  apply (proj1 all_resized_widest_then_cleaned None
           (lit "https://x/a-300x300.jpg 300w, https://x/a-800x800.jpg 800w")).
  - vm_compute. reflexivity.
  - discriminate.
  - intros y [<-|[<-|[]]]; vm_compute; reflexivity.
Defined.


(** ** Failures while the srcset is read *)







(** ** What can raise *)









(** ** Absent inputs *)

(** C7.  The empty string and [None] can be exchanged in either argument
    without changing the result, and the result is [None] when both inputs
    are absent or empty. *)
Theorem empty_string_is_none :
  (forall srcset_str : option str,
      get_original_image_url (Some []) srcset_str
      = get_original_image_url None srcset_str) /\
  (forall image_url : option str,
      get_original_image_url image_url (Some [])
      = get_original_image_url image_url None) /\
  get_original_image_url None None = Ok None /\
  get_original_image_url (Some (lit "")) (Some (lit "")) = Ok None /\
  get_original_image_url None (Some (lit "")) = Ok None.
Proof.
  split; [|split; [|repeat split]].
  - intros [[|a s]|]; try reflexivity.
    unfold get_original_image_url, working_url. simpl.
    destruct (try_except (srcset_best (a :: s)) (fun _ => Ok None))
      as [[[|b v]|]|e]; reflexivity.
  - intros [[|c u]|]; reflexivity.
Qed.


(** ** Ties *)

(** C8.  Among the candidates the maximum is taken over (those that do not
    look resized when there are any, all of them otherwise), the one chosen
    is the first of largest width: every candidate before it is strictly
    narrower, none after it is wider.  Such a candidate exists whenever the
    srcset gives a candidate.  In the example two candidates share the
    width 500 and the first is taken. *)
Theorem first_widest_candidate_wins :
  (forall (image_url : option str) (s : str) (cands l1 l2 : list candidate)
          (c : candidate),
      parse_srcset s = Ok cands ->
      pool cands = l1 ++ c :: l2 ->
      (forall y, In y l1 -> (width y < width c)%Z) ->
      (forall y, In y l2 -> (width y <= width c)%Z) ->
      get_original_image_url image_url (Some s)
      = Ok (Some (clean_url (url c)))) /\
  (forall cands : list candidate,
      cands <> [] ->
      exists l1 c l2,
        pool cands = l1 ++ c :: l2 /\
        (forall y, In y l1 -> (width y < width c)%Z) /\
        (forall y, In y l2 -> (width y <= width c)%Z)) /\
  (forall image_url : option str,
      get_original_image_url image_url
        (Some (lit "https://x/a.jpg 500w, https://x/b.jpg 500w"))
      = Ok (Some (lit "https://x/a.jpg"))).
Proof.
  split; [|split].
  - intros image_url s cands l1 l2 c Hp E H1 H2.
    apply resolve_chosen with (cands := cands); auto.
    + eapply choose_first_max; eauto.
    + apply (@pool_token_url s cands c Hp). rewrite E. apply in_elt.
  - intros cands Hc.
    assert (Hp : pool cands <> []).
    { unfold pool. destruct (non_resized cands); [exact Hc | discriminate]. }
    destruct (max_by_spec width Hp) as (c & l1 & l2 & _ & E & H1 & H2).
    exists l1, c, l2. auto.
  - intros image_url.
    rewrite resolve_chosen with
      (cands := [Candidate (lit "https://x/a.jpg") 500;
                 Candidate (lit "https://x/b.jpg") 500])
      (u := lit "https://x/a.jpg"); try (vm_compute; reflexivity).
    discriminate.
Qed.

Lemma first_widest_candidate_wins_witness :
  get_original_image_url None
    (Some (lit "https://x/n.jpg 100w, https://x/a.jpg 500w, https://x/b.jpg 500w"))
  = Ok (Some (clean_url (url (Candidate (lit "https://x/a.jpg") 500)))).
Proof.
  apply (proj1 first_widest_candidate_wins None
           (lit "https://x/n.jpg 100w, https://x/a.jpg 500w, https://x/b.jpg 500w")
           [Candidate (lit "https://x/n.jpg") 100;
            Candidate (lit "https://x/a.jpg") 500;
            Candidate (lit "https://x/b.jpg") 500]
           [Candidate (lit "https://x/n.jpg") 100]
           [Candidate (lit "https://x/b.jpg") 500]
           (Candidate (lit "https://x/a.jpg") 500)).
  - vm_compute. reflexivity.
  - vm_compute. reflexivity.
  - intros y [<-|[]]. simpl. lia.
  - intros y [<-|[]]. simpl. lia.
Defined.

(** ** One suffix at a time *)

Lemma forallb_digit_any (w : str) : forallb digit w = true -> forallb any w = true.
Proof.
  intros H. apply forallb_forall. intros c Hc.
  rewrite forallb_forall in H. apply digit_any. auto.
Qed.

(** C9.  The cleaning removes one resize suffix, the last: of two in a row
    the first is kept.  A URL the pattern does not accept is returned as it
    is, so cleaning a result that has no suffix left changes nothing. *)
Theorem cleaning_strips_one_suffix :
  get_original_image_url (Some (lit "https://x/a-100x100-200x200.jpg")) None
  = Ok (Some (lit "https://x/a-100x100.jpg")) /\
  (forall base d1 d2 d3 d4 ext : str,
      forallb any base = true ->
      digits d1 -> digits d2 -> digits d3 -> digits d4 -> letters 3 5 ext ->
      get_original_image_url
        (Some (base ++ lit "-" ++ d1 ++ lit "x" ++ d2 ++
               lit "-" ++ d3 ++ lit "x" ++ d4 ++ lit "." ++ ext)) None
      = Ok (Some (base ++ lit "-" ++ d1 ++ lit "x" ++ d2 ++ lit "." ++ ext))) /\
  (forall u : str,
      u <> [] ->
      (forall base ext, ~ clean_shape u base ext) ->
      get_original_image_url (Some u) None = Ok (Some u)) /\
  (forall u r : str,
      get_original_image_url (Some u) None = Ok (Some r) ->
      (forall base ext, ~ clean_shape r base ext) ->
      get_original_image_url (Some r) None = Ok (Some r)).
Proof.
  assert (Hno : forall u : str, u <> [] ->
            (forall base ext, ~ clean_shape u base ext) ->
            get_original_image_url (Some u) None = Ok (Some u)).
  { intros [|c u] Hu Hn; [contradiction|].
    rewrite resolve_src_only, (clean_url_no_shape Hn). reflexivity. }
  split; [vm_compute; reflexivity|]. split; [|split; [exact Hno|]].
  - intros base d1 d2 d3 d4 ext Hb D1 D2 D3 D4 He.
    assert (Hs : clean_shape
                   (base ++ lit "-" ++ d1 ++ lit "x" ++ d2 ++
                    lit "-" ++ d3 ++ lit "x" ++ d4 ++ lit "." ++ ext)
                   (base ++ lit "-" ++ d1 ++ lit "x" ++ d2) ext).
    { apply CleanShape with (d1 := d3) (d2 := d4) (dpi := []) (nl := []); auto.
      - simpl. rewrite app_nil_r, <- !app_assoc. simpl.
        rewrite <- !app_assoc. reflexivity.
      - simpl. rewrite forallb_app. simpl. rewrite forallb_app. simpl.
        rewrite Hb, (forallb_digit_any _ (proj2 D1)), (forallb_digit_any _ (proj2 D2)).
        reflexivity.
      - left. reflexivity.
      - left. reflexivity. }
    rewrite resolve_src_only.
    destruct (base ++ lit "-" ++ d1 ++ lit "x" ++ d2 ++
              lit "-" ++ d3 ++ lit "x" ++ d4 ++ lit "." ++ ext) as [|c u] eqn:E.
    + destruct base; discriminate.
    + rewrite (clean_url_shape Hs). simpl. rewrite <- !app_assoc. simpl.
      rewrite <- !app_assoc. reflexivity.
  - intros u r H Hn. apply Hno; [|exact Hn].
    rewrite resolve_src_only in H. destruct u as [|c u]; [discriminate|].
    injection H as <-.
    destruct (clean_url_cases (c :: u)) as [(b & e & _ & ->) | (_ & ->)].
    + destruct b; discriminate.
    + discriminate.
Qed.

Lemma cleaning_strips_one_suffix_witness :
  get_original_image_url (Some (lit "https://x/a.jpeg")) None
  = Ok (Some (lit "https://x/a.jpeg")).
Proof.
  apply (proj1 (proj2 (proj2 cleaning_strips_one_suffix)) (lit "https://x/a.jpeg")).
  - discriminate.
  - intros base ext Hs. apply re_match_clean in Hs.
    destruct Hs as (m & Hm & _). vm_compute in Hm. discriminate.
Defined.


(** ** Density markers *)

Lemma density_not_resized (base d1 d2 ext : str) (d : ascii) :
  digits d1 -> digits d2 -> digit d = true -> letters 3 5 ext ->
  ~ resized_shape (base ++ lit "-" ++ d1 ++ lit "x" ++ d2 ++
                   lit "@" ++ [d] ++ lit "x." ++ ext).
Proof.
  intros D1 D2 Hd [He [L3 L5]] [p d1' d2' ext' nl' E D1' D2' [He' [L3' L4']] Hnl'].
  apply (f_equal (@rev ascii)) in E.
  repeat (rewrite ?rev_app_distr in E; simpl in E; rewrite <- ?app_assoc in E; simpl in E).
  change (rev ext ++ "."%char :: "x"%char :: d :: "@"%char ::
            rev d2 ++ "x"%char :: rev d1 ++ "-"%char :: rev base)
    with (rev [] ++ rev ext ++ "."%char :: "x"%char :: d :: "@"%char ::
            rev d2 ++ "x"%char :: rev d1 ++ "-"%char :: rev base) in E.
  apply ext_end_unique in E; auto;
    try (intros ->; simpl in *; lia); try (left; reflexivity).
  destruct E as [_ E].
  destruct (@rev_digits_head d2' ("x"%char :: rev d1' ++ "-"%char :: rev p) D2')
    as (c & t & Ec & Hc).
  rewrite Ec in E. injection E as <- _. discriminate.
Qed.

(** C10.  A URL that ends in a resize suffix, a density marker and an
    extension does not look resized to the filter of line 43, and the
    cleaning of line 62 removes suffix and marker together.  In the example
    such a candidate of width 100 is taken before a resized-looking one of
    width 500, and the result is its URL without "-100x100@2x". *)
Theorem density_marker_escapes_filter :
  (forall (base d1 d2 ext : str) (d : ascii),
      digits d1 -> digits d2 -> digit d = true -> letters 3 5 ext ->
      looks_resized (base ++ lit "-" ++ d1 ++ lit "x" ++ d2 ++
                     lit "@" ++ [d] ++ lit "x." ++ ext) = false) /\
  (forall (base d1 d2 ext : str) (d : ascii),
      forallb any base = true ->
      digits d1 -> digits d2 -> digit d = true -> letters 3 5 ext ->
      clean_url (base ++ lit "-" ++ d1 ++ lit "x" ++ d2 ++
                 lit "@" ++ [d] ++ lit "x." ++ ext)
      = base ++ lit "." ++ ext) /\
  get_original_image_url None
    (Some (lit "https://x/a-100x100@2x.jpg 100w, https://x/b-500x500.jpg 500w"))
  = Ok (Some (lit "https://x/a.jpg")).
Proof.
  split; [|split; [|vm_compute; reflexivity]].
  - intros base d1 d2 ext d D1 D2 Hd He.
    apply looks_resized_false. apply density_not_resized; auto.
  - intros base d1 d2 ext d Hb D1 D2 Hd He.
    apply clean_url_shape.
    apply CleanShape with (d1 := d1) (d2 := d2) (dpi := ["@"%char; d; "x"%char])
                          (nl := []); auto.
    + simpl. rewrite app_nil_r. reflexivity.
    + right. eauto.
    + left. reflexivity.
Qed.

Lemma density_marker_escapes_filter_witness :
  looks_resized (lit "https://x/a" ++ lit "-" ++ lit "100" ++ lit "x" ++ lit "100" ++
                 lit "@" ++ ["2"%char] ++ lit "x." ++ lit "jpg") = false.
Proof.
  apply (proj1 density_marker_escapes_filter).
  - split; [discriminate | reflexivity].
  - split; [discriminate | reflexivity].
  - reflexivity.
  - split; [reflexivity | simpl; lia].
Defined.

(** * Further properties *)

(** ** Substitution *)

Lemma span_len_le (p : ascii -> bool) (s : str) : span_len p s <= length s.
Proof.
  induction s as [|c t IH]; simpl; [lia|]. destruct (p c); simpl; lia.
Qed.

Lemma sub_from_skip (r : regex) (repl : str) (k : nat) :
  forall s n, k <= length s ->
    sub_from r repl n k s = sub_from r repl (n + k) 0 (skipn k s).
Proof.
  induction k as [|k IH]; intros s n Hk.
  - rewrite Nat.add_0_r. reflexivity.
  - destruct s as [|c t]; simpl in Hk; [lia|].
    simpl. rewrite IH by lia. f_equal. lia.
Qed.

(** The preferred match of a greedy repetition without upper bound is the
    longest run. *)
Lemma rep_longest_first (p : ascii -> bool) (s : str) :
  forall lo n, lo <= span_len p s ->
    exists l, rep p lo None n s
              = (n + span_len p s, skipn (span_len p s) s) :: l.
Proof.
  induction s as [|c t IH]; intros lo n Hlo; simpl in *.
  - assert (lo = 0) by lia. subst lo. simpl. rewrite Nat.add_0_r. eauto.
  - destruct (p c); simpl in *.
    + destruct (IH (Nat.pred lo) (S n)) as (l & E); [lia|].
      rewrite E. replace (S n + span_len p t) with (n + S (span_len p t)) by lia.
      simpl. eauto.
    + assert (lo = 0) by lia. subst lo. simpl. rewrite Nat.add_0_r. eauto.
Qed.

Lemma rep_too_short (p : ascii -> bool) (s : str) :
  forall lo n, span_len p s < lo -> rep p lo None n s = [].
Proof.
  induction s as [|c t IH]; intros lo n Hlo; simpl in *.
  - destruct lo; [lia | reflexivity].
  - destruct (p c); simpl in *.
    + rewrite IH by lia. destruct lo; [lia | reflexivity].
    + destruct lo; [lia | reflexivity].
Qed.

Lemma squeeze_inside (p : ascii -> bool) (repl : str) (s : str) :
  squeeze p repl true s = squeeze p repl false (skipn (span_len p s) s).
Proof.
  induction s as [|c t IH]; simpl; [reflexivity|].
  destruct (p c) eqn:Hc; simpl; [exact IH | rewrite Hc; reflexivity].
Qed.

Lemma sub_from_unfold (r : regex) (repl : str) (n : nat) (s : str) :
  sub_from r repl n 0 s =
  match run r (MState n s []) with
  | m :: _ =>
      repl ++
      match s with
      | [] => []
      | c :: t =>
          if (pos m =? n)%nat then c :: sub_from r repl (S n) 0 t
          else sub_from r repl (S n) (pos m - n - 1) t
      end
  | [] =>
      match s with
      | [] => []
      | c :: t => c :: sub_from r repl (S n) 0 t
      end
  end.
Proof. destruct s; reflexivity. Qed.

(** Replacing every match of a class by [repl]. *)
Lemma sub_from_cls (p : ascii -> bool) (repl : str) (s : str) :
  forall n, sub_from (Cls p) repl n 0 s
            = flat_map (fun c => if p c then repl else [c]) s.
Proof.
  induction s as [|c t IH]; intros n; [reflexivity|].
  rewrite sub_from_unfold. cbn [run rest flat_map]. destruct (p c).
  - cbn [advance pos].
    replace (S n =? n)%nat with false by (symmetry; apply Nat.eqb_neq; lia).
    replace (S n - n - 1) with 0 by lia.
    rewrite IH. reflexivity.
  - rewrite IH. reflexivity.
Qed.

Lemma re_sub_delete (p : ascii -> bool) (s : str) :
  re_sub (Cls p) [] s = filter (fun c => negb (p c)) s.
Proof.
  unfold re_sub. rewrite sub_from_cls.
  induction s as [|c t IH]; simpl; [reflexivity|].
  destruct (p c); simpl; rewrite IH; reflexivity.
Qed.

(** Replacing every run of a class by [repl]. *)
Lemma sub_from_runs (p : ascii -> bool) (repl : str) (k : nat) :
  forall s n, length s <= k ->
    sub_from (Rep p 1 None) repl n 0 s = squeeze p repl false s.
Proof.
  induction k as [|k IH]; intros s n Hk.
  - destruct s; [reflexivity | simpl in Hk; lia].
  - destruct s as [|c t]; [reflexivity|]. simpl in Hk.
    rewrite sub_from_unfold. cbn [run rest pos groups squeeze].
    destruct (p c) eqn:Hc.
    + destruct (@rep_longest_first p (c :: t) 1 n) as (l & E).
      { simpl. rewrite Hc. lia. }
      rewrite E. cbn [map fst snd pos]. simpl span_len. rewrite Hc.
      replace (n + S (span_len p t) =? n)%nat with false
        by (symmetry; apply Nat.eqb_neq; lia).
      replace (n + S (span_len p t) - n - 1) with (span_len p t) by lia.
      pose proof (span_len_le p t) as Hle.
      rewrite sub_from_skip by exact Hle.
      rewrite IH by (rewrite length_skipn; lia).
      rewrite squeeze_inside. reflexivity.
    + rewrite rep_too_short by (simpl; rewrite Hc; lia).
      cbn [map]. rewrite IH by lia. reflexivity.
Qed.

Lemma re_sub_runs (p : ascii -> bool) (repl : str) (s : str) :
  re_sub (Rep p 1 None) repl s = squeeze p repl false s.
Proof. unfold re_sub. apply sub_from_runs with (k := length s). lia. Qed.

(** [sanitize_filename] without regular expressions. *)
Lemma sanitize_filename_eq (name : str) :
  sanitize_filename name
  = firstn 100 (squeeze space (lit "_") false
                        (filter (fun c => negb (forbidden c)) name)).
Proof.
  unfold sanitize_filename. change (lit "") with (@nil ascii).
  rewrite re_sub_delete, re_sub_runs. reflexivity.
Qed.

(** ** File names *)

Lemma in_squeeze (p : ascii -> bool) (repl : str) (s : str) (c : ascii) :
  forall inside, In c (squeeze p repl inside s) ->
    In c repl \/ (In c s /\ p c = false).
Proof.
  induction s as [|x t IH]; intros inside H; simpl in H; [destruct H|].
  destruct (p x) eqn:Hx.
  - apply in_app_iff in H. destruct H as [H|H].
    + destruct inside; [destruct H | left; exact H].
    + destruct (IH _ H) as [H'|[H' Hp]]; [left; exact H' | right; simpl; auto].
  - destruct H as [<-|H]; [right; simpl; auto|].
    destruct (IH _ H) as [H'|[H' Hp]]; [left; exact H' | right; simpl; auto].
Qed.

Lemma squeeze_none (p : ascii -> bool) (repl : str) (s : str) :
  forallb (fun c => negb (p c)) s = true ->
  forall inside, squeeze p repl inside s = s.
Proof.
  induction s as [|x t IH]; intros H inside; simpl in *; [reflexivity|].
  apply andb_true_iff in H. destruct H as [Hx Ht].
  apply negb_true_iff in Hx. rewrite Hx, IH by exact Ht. reflexivity.
Qed.

Lemma filter_all (A : Type) (f : A -> bool) (l : list A) :
  forallb f l = true -> filter f l = l.
Proof.
  induction l as [|x t IH]; simpl; [reflexivity|]. intros H.
  apply andb_true_iff in H. destruct H as [Hx Ht]. rewrite Hx, IH by exact Ht.
  reflexivity.
Qed.

Lemma in_firstn (A : Type) (n : nat) (l : list A) (x : A) :
  In x (firstn n l) -> In x l.
Proof.
  intros H. rewrite <- (firstn_skipn n l). apply in_or_app. left. exact H.
Qed.

Lemma sanitize_filename_chars (name : str) (c : ascii) :
  In c (sanitize_filename name) -> forbidden c = false /\ Py.isspace c = false.
Proof.
  rewrite sanitize_filename_eq. intros Hc.
  apply in_firstn in Hc. apply in_squeeze in Hc.
  destruct Hc as [Hc | [Hc Hs]].
  - destruct Hc as [<-|[]]. split; reflexivity.
  - apply filter_In in Hc. destruct Hc as [_ Hf].
    apply negb_true_iff in Hf. split; [exact Hf | exact Hs].
Qed.

Lemma sanitize_filename_length (name : str) : length (sanitize_filename name) <= 100.
Proof. rewrite sanitize_filename_eq, length_firstn. lia. Qed.

(** X1.  The result of [sanitize_filename] has at most 100 characters, and
    none of them is a character of the class of line 11 or white space: no
    slash or backslash is left in a folder or file name. *)
Theorem sanitize_filename_safe :
  forall name : str,
    length (sanitize_filename name) <= 100 /\
    (forall c, In c (sanitize_filename name) ->
               forbidden c = false /\ Py.isspace c = false).
Proof.
  intros name. split; [apply sanitize_filename_length|].
  intros c. apply sanitize_filename_chars.
Qed.

Lemma sanitize_filename_safe_witness :
  forbidden "_"%char = false /\ Py.isspace "_"%char = false.
Proof.
  apply (proj2 (sanitize_filename_safe (lit "a / b")) "_"%char).
  vm_compute. right. left. reflexivity.
Defined.

Lemma safe_name_fixed (w : str) : safe_name w -> sanitize_filename w = w.
Proof.
  intros [Hc Hl]. rewrite sanitize_filename_eq.
  assert (Hf : forallb (fun c => negb (forbidden c)) w = true).
  { apply forallb_forall. intros c Hin. rewrite forallb_forall in Hc.
    specialize (Hc c Hin). apply andb_true_iff in Hc. tauto. }
  assert (Hs : forallb (fun c => negb (space c)) w = true).
  { apply forallb_forall. intros c Hin. rewrite forallb_forall in Hc.
    specialize (Hc c Hin). apply andb_true_iff in Hc. tauto. }
  rewrite (@filter_all _ _ _ Hf), (@squeeze_none _ (lit "_") _ Hs).
  apply firstn_all2. exact Hl.
Qed.

Lemma sanitize_filename_safe_name (name : str) : safe_name (sanitize_filename name).
Proof.
  split; [|apply sanitize_filename_length].
  apply forallb_forall. intros c Hin.
  destruct (sanitize_filename_chars _ _ Hin) as [Hf Hs].
  unfold space. rewrite Hf, Hs. reflexivity.
Qed.

(** X2.  A name of at most 100 characters without white space and without
    characters of the class of line 11 is returned as it is; hence a
    sanitized name is not changed by sanitizing it again. *)
Theorem sanitize_filename_idempotent :
  (forall w : str, safe_name w -> sanitize_filename w = w) /\
  (forall name : str,
      sanitize_filename (sanitize_filename name) = sanitize_filename name).
Proof.
  split; [exact safe_name_fixed|].
  intros name. apply safe_name_fixed. apply sanitize_filename_safe_name.
Qed.

Lemma sanitize_filename_idempotent_witness :
  sanitize_filename (lit "Potty_Liners-30") = lit "Potty_Liners-30".
Proof.
  apply (proj1 sanitize_filename_idempotent).
  split; [reflexivity | simpl; lia].
Defined.

(** X3.  The result is the empty string exactly when every character of
    the name belongs to the class of line 11 (the empty name included): such
    a product gets the empty folder name. *)
Theorem sanitize_filename_empty :
  forall name : str,
    sanitize_filename name = [] <-> forallb forbidden name = true.
Proof.
  intros name. rewrite sanitize_filename_eq. split.
  - intros H. apply forallb_forall. intros c Hin.
    destruct (forbidden c) eqn:Hf; [reflexivity | exfalso].
    assert (Hc : In c (filter (fun c => negb (forbidden c)) name)).
    { apply filter_In. rewrite Hf. auto. }
    destruct (filter (fun c => negb (forbidden c)) name) as [|x t]; [destruct Hc|].
    simpl in H. destruct (space x); discriminate.
  - intros H. replace (filter (fun c => negb (forbidden c)) name) with (@nil ascii);
      [reflexivity|].
    symmetry. induction name as [|x t IH]; simpl in *; [reflexivity|].
    apply andb_true_iff in H. destruct H as [Hx Ht]. rewrite Hx. simpl. auto.
Qed.

(** X4.  Characters of the class of line 11 are deleted before anything
    else is done: two names that differ by such a character have the same
    sanitized name, and so the same folder. *)
Theorem sanitize_filename_drops_forbidden :
  forall (a b : str) (c : ascii),
    forbidden c = true ->
    sanitize_filename (a ++ c :: b) = sanitize_filename (a ++ b).
Proof.
  intros a b c Hc. rewrite !sanitize_filename_eq, !filter_app. simpl.
  rewrite Hc. reflexivity.
Qed.

Lemma sanitize_filename_drops_forbidden_witness :
  sanitize_filename (lit "a" ++ "/"%char :: lit "b") = sanitize_filename (lit "a" ++ lit "b").
Proof.
  apply sanitize_filename_drops_forbidden. reflexivity.
Defined.

(** ** Prices *)

Lemma lstrip_nil_iff (s : str) : Py.lstrip s = [] <-> forallb Py.isspace s = true.
Proof.
  induction s as [|c t IH]; simpl; [tauto|].
  destruct (Py.isspace c); simpl; [exact IH | split; discriminate].
Qed.

Lemma lstrip_app_all (a b : str) :
  forallb Py.isspace a = true -> Py.lstrip (a ++ b) = Py.lstrip b.
Proof.
  induction a as [|c t IH]; simpl; [reflexivity|]. intros H.
  apply andb_true_iff in H. destruct H as [Hc Ht]. rewrite Hc. auto.
Qed.

Lemma lstrip_app_some (a b : str) :
  forallb Py.isspace a = false -> Py.lstrip (a ++ b) = Py.lstrip a ++ b.
Proof.
  induction a as [|c t IH]; simpl; [discriminate|].
  destruct (Py.isspace c); simpl; [exact IH | reflexivity].
Qed.

Lemma forallb_rev_eq (A : Type) (p : A -> bool) (l : list A) :
  forallb p (rev l) = forallb p l.
Proof.
  induction l as [|x t IH]; simpl; [reflexivity|].
  rewrite forallb_app, IH. simpl. rewrite andb_true_r. apply andb_comm.
Qed.

Lemma rstrip_nil_iff (s : str) : Py.rstrip s = [] <-> forallb Py.isspace s = true.
Proof.
  unfold Py.rstrip. rewrite <- (forallb_rev_eq Py.isspace s), <- lstrip_nil_iff.
  split; intros H.
  - apply (f_equal (@rev ascii)) in H. rewrite rev_involutive in H. exact H.
  - rewrite H. reflexivity.
Qed.

Lemma rstrip_app_all (a b : str) :
  forallb Py.isspace b = true -> Py.rstrip (a ++ b) = Py.rstrip a.
Proof.
  intros H. unfold Py.rstrip. rewrite rev_app_distr, lstrip_app_all; [reflexivity|].
  rewrite forallb_rev_eq. exact H.
Qed.

Lemma rstrip_app_some (a b : str) :
  forallb Py.isspace b = false -> Py.rstrip (a ++ b) = a ++ Py.rstrip b.
Proof.
  intros H. unfold Py.rstrip. rewrite rev_app_distr, lstrip_app_some.
  - rewrite rev_app_distr, rev_involutive. reflexivity.
  - rewrite forallb_rev_eq. exact H.
Qed.

(** A run that is read, last character first: not empty, no white space. *)
Lemma rstrip_run (cur : str) :
  cur <> [] -> no_space cur -> Py.rstrip (rev cur) = rev cur.
Proof.
  intros Hn Hs. unfold Py.rstrip. rewrite rev_involutive.
  destruct cur as [|c t]; [contradiction|].
  unfold no_space in Hs. simpl in Hs. apply andb_true_iff in Hs.
  destruct Hs as [Hc _]. apply negb_true_iff in Hc. simpl Py.lstrip at 1.
  rewrite Hc. reflexivity.
Qed.

Lemma join_cons (sep x : str) (l : list str) :
  Py.join sep (x :: l) =
  match l with
  | [] => x
  | _ :: _ => x ++ sep ++ Py.join sep l
  end.
Proof. reflexivity. Qed.

Lemma join_tokens_not_nil (sep tok : str) (l : list str) :
  tok <> [] -> Py.join sep (tok :: l) <> [].
Proof.
  intros Ht. rewrite join_cons. destruct l; [exact Ht|].
  destruct tok; [contradiction | discriminate].
Qed.

(** The tokens of [split()] put together with single spaces are the string
    with its runs of white space squeezed and its right end stripped. *)
Lemma join_split_from (s : str) :
  (forall cur, cur <> [] -> no_space cur ->
      Py.join (lit " ") (Py.split_ws_from cur s)
      = Py.rstrip (rev cur ++ squeeze space (lit " ") false s)) /\
  Py.join (lit " ") (Py.split_ws_from [] s)
  = Py.rstrip (squeeze space (lit " ") true s).
Proof.
  induction s as [|c t [IH1 IH2]].
  - split.
    + intros cur Hn Hs. simpl. rewrite app_nil_r.
      destruct cur as [|x cur]; [contradiction|]. symmetry.
      apply rstrip_run; auto.
    + reflexivity.
  - assert (Hsp : Py.isspace c = true ->
              forall cur, cur <> [] -> no_space cur ->
              Py.join (lit " ") (rev cur :: Py.split_ws_from [] t)
              = Py.rstrip (rev cur ++ lit " " ++ squeeze space (lit " ") true t)).
    { intros Hc cur Hn Hs. rewrite join_cons.
      destruct (Py.split_ws_from [] t) as [|tok more] eqn:Et.
      - simpl in IH2. symmetry in IH2. apply rstrip_nil_iff in IH2.
        rewrite rstrip_app_all; [symmetry; apply rstrip_run; auto|].
        simpl. exact IH2.
      - assert (Htok : tok <> []).
        { apply (@split_ws_from_tokens t [] tok); [reflexivity|].
          rewrite Et. left. reflexivity. }
        assert (Hx : forallb Py.isspace (squeeze space (lit " ") true t) = false).
        { destruct (forallb Py.isspace (squeeze space (lit " ") true t)) eqn:E;
            [|reflexivity].
          apply rstrip_nil_iff in E. rewrite E in IH2.
          exfalso. revert IH2. apply join_tokens_not_nil. exact Htok. }
        rewrite IH2. rewrite rstrip_app_some.
        + f_equal. change (lit " " ++ squeeze space (lit " ") true t)
            with ([" "%char] ++ squeeze space (lit " ") true t).
          rewrite rstrip_app_some by exact Hx. reflexivity.
        + simpl. exact Hx. }
    split.
    + intros cur Hn Hs. simpl. unfold space at 1. destruct (Py.isspace c) eqn:Hc.
      * destruct cur as [|x cur]; [contradiction|].
        apply (Hsp eq_refl (x :: cur)); auto.
      * rewrite IH1.
        -- simpl. rewrite <- app_assoc. reflexivity.
        -- discriminate.
        -- unfold no_space. simpl. rewrite Hc. exact Hs.
    + simpl. unfold space at 1. destruct (Py.isspace c) eqn:Hc.
      * exact IH2.
      * rewrite IH1; [reflexivity | discriminate |].
        unfold no_space. simpl. rewrite Hc. reflexivity.
Qed.

Lemma lstrip_squeeze_inside (s : str) :
  Py.lstrip (squeeze space (lit " ") true s) = squeeze space (lit " ") true s.
Proof.
  induction s as [|c t IH]; simpl; [reflexivity|].
  destruct (space c) eqn:Hc; simpl; [exact IH|].
  unfold space in Hc. rewrite Hc. reflexivity.
Qed.

Lemma lstrip_squeeze (s : str) :
  Py.lstrip (squeeze space (lit " ") false s) = squeeze space (lit " ") true s.
Proof.
  destruct s as [|c t]; simpl; [reflexivity|].
  destruct (space c) eqn:Hc; simpl.
  - apply lstrip_squeeze_inside.
  - unfold space in Hc. rewrite Hc. reflexivity.
Qed.

Lemma strip_squeeze (s : str) :
  Py.strip (squeeze space (lit " ") false s) = Py.join (lit " ") (Py.split s).
Proof.
  unfold Py.strip, Py.split. rewrite lstrip_squeeze.
  symmetry. apply join_split_from.
Qed.

(** Tokens put together with single spaces are found again by [split()]. *)
Lemma split_ws_from_token (tok : str) :
  forall cur s, no_space tok ->
    Py.split_ws_from cur (tok ++ s) = Py.split_ws_from (rev tok ++ cur) s.
Proof.
  induction tok as [|c t IH]; intros cur s H; [reflexivity|].
  unfold no_space in H. simpl in H. apply andb_true_iff in H.
  destruct H as [Hc Ht]. apply negb_true_iff in Hc.
  simpl. rewrite Hc, IH by exact Ht. rewrite <- app_assoc. reflexivity.
Qed.

Lemma split_join (toks : list str) :
  Forall token toks -> Py.split (Py.join (lit " ") toks) = toks.
Proof.
  unfold Py.split. induction toks as [|tok more IH]; intros H; [reflexivity|].
  inversion H as [|? ? [Hn Hs] Hmore]; subst.
  assert (Hr : rev tok <> []).
  { intros E. apply (f_equal (@rev ascii)) in E. rewrite rev_involutive in E. auto. }
  rewrite join_cons. destruct more as [|tok2 more].
  - rewrite <- (app_nil_r tok) at 1. rewrite split_ws_from_token by exact Hs.
    rewrite app_nil_r. simpl. destruct (rev tok) eqn:E; [contradiction|].
    rewrite <- E, rev_involutive. reflexivity.
  - rewrite split_ws_from_token by exact Hs. rewrite app_nil_r.
    simpl. destruct (rev tok) eqn:E; [contradiction|].
    rewrite <- E, rev_involutive. f_equal. apply IH. exact Hmore.
Qed.

Lemma split_all_tokens (s : str) : Forall token (Py.split s).
Proof.
  apply Forall_forall. intros tok H. apply (split_tokens _ _ H).
Qed.

Lemma price_parts_tokens (parts : list str) :
  Forall token parts -> Forall token (price_parts parts).
Proof.
  intros H. unfold price_parts.
  destruct parts as [|p0 [|[|c w] more]]; auto.
  destruct (str_eq_dec p0 (c :: w)); auto.
  destruct (Py.str_isdigit c); auto.
  inversion H as [|? ? H0 H1]; subst. inversion H1; subst. constructor; auto.
Qed.

Lemma normalize_price_eq (price : str) :
  normalize_price price
  = Some (Py.join (lit " ") (price_parts (Py.split price))).
Proof.
  unfold normalize_price. rewrite re_sub_runs, strip_squeeze.
  rewrite (split_join (split_all_tokens price)).
  pose proof (split_all_tokens price) as Htok.
  destruct (Py.split price) as [|p0 [|p1 more]]; try reflexivity.
  inversion Htok as [|? ? _ H1]; subst. inversion H1 as [|? ? [Hn _] _]; subst.
  destruct p1 as [|c w]; [contradiction|].
  unfold price_parts.
  destruct (str_eq_dec p0 (c :: w)); [|reflexivity].
  destruct (Py.str_isdigit c); reflexivity.
Qed.

(** X5.  The tidying of the price never raises.  Its result is made of the
    parts of the price text ([split()]) joined by single spaces, the second
    part left out when it repeats the first and does not start with a
    digit; splitting the result gives these parts back, so the result has no
    white space at its ends and none but single spaces inside. *)
Theorem normalize_price_parts :
  forall price : str,
    normalize_price price
    = Some (Py.join (lit " ") (price_parts (Py.split price))) /\
    Py.split (Py.join (lit " ") (price_parts (Py.split price)))
    = price_parts (Py.split price).
Proof.
  intros price. split; [apply normalize_price_eq|].
  apply split_join. apply price_parts_tokens. apply split_all_tokens.
Qed.

(** X6.  A currency symbol written twice is kept once: for a price text
    whose two first parts are the same and do not start with a digit, the
    result is the first part and the parts after the second, joined by
    single spaces. *)
Theorem normalize_price_repeated_symbol :
  forall (price : str) (c : ascii) (w : str) (more : list str),
    Py.split price = (c :: w) :: (c :: w) :: more ->
    Py.str_isdigit c = false ->
    normalize_price price = Some (Py.join (lit " ") ((c :: w) :: more)).
Proof.
  intros price c w more Hs Hc.
  rewrite normalize_price_eq, Hs. unfold price_parts.
  destruct (str_eq_dec (c :: w) (c :: w)) as [_|N]; [|contradiction].
  rewrite Hc. reflexivity.
Qed.

Lemma normalize_price_repeated_symbol_witness :
  normalize_price (lit " Rs   Rs 1,500 ")
  = Some (Py.join (lit " ") [lit "Rs"; lit "1,500"]).
Proof.
  apply (@normalize_price_repeated_symbol (lit " Rs   Rs 1,500 ")
           "R"%char (lit "s") [lit "1,500"]); reflexivity.
Defined.

(** ** The loop over the containers *)

Lemma set_in_true (x : str) (s : pyset) : set_in x s = true <-> In x s.
Proof.
  split.
  - apply ListSet.set_mem_correct1.
  - apply ListSet.set_mem_correct2.
Qed.

Lemma set_in_false (x : str) (s : pyset) : set_in x s = false <-> ~ In x s.
Proof.
  rewrite <- set_in_true. destruct (set_in x s); split; congruence.
Qed.

Lemma in_set_insert (x y : str) (s : pyset) :
  In y (set_insert x s) <-> y = x \/ In y s.
Proof. apply ListSet.set_add_iff. Qed.

Lemma length_set_insert_new (x : str) (s : pyset) :
  ~ In x s -> length (set_insert x s) = S (length s).
Proof.
  unfold set_insert. induction s as [|y t IH]; intros H; simpl; [reflexivity|].
  destruct (str_eq_dec x y) as [->|N].
  - exfalso. apply H. left. reflexivity.
  - simpl. rewrite IH; [reflexivity|]. intros Hin. apply H. right. exact Hin.
Qed.

(** The sum of the four counters. *)
Lemma process_container_count (site : site_type) (st : loop_state) (index : nat)
      (c : container) :
  products_added (process_container site st index c)
  + products_skipped_duplicate_folder (process_container site st index c)
  + products_skipped_duplicate_id (process_container site st index c)
  + products_skipped_missing_info (process_container site st index c)
  = S (products_added st + products_skipped_duplicate_folder st
       + products_skipped_duplicate_id st + products_skipped_missing_info st).
Proof.
  unfold process_container.
  destruct (set_in _ (processed_product_ids st)); simpl; [lia|].
  destruct (_ && _); simpl; [lia|].
  destruct (set_in _ (processed_product_folders st)); simpl; lia.
Qed.

Lemma process_containers_count (site : site_type) (containers : list container) :
  forall st index,
    products_added (process_containers site st index containers)
    + products_skipped_duplicate_folder (process_containers site st index containers)
    + products_skipped_duplicate_id (process_containers site st index containers)
    + products_skipped_missing_info (process_containers site st index containers)
    = products_added st + products_skipped_duplicate_folder st
      + products_skipped_duplicate_id st + products_skipped_missing_info st
      + length containers.
Proof.
  induction containers as [|c more IH]; intros st index; simpl; [lia|].
  rewrite IH, process_container_count. lia.
Qed.

(** X7.  Every container is counted once: when [extract_product_info] has
    gone through the containers, the products added and the three kinds of
    skipped products add up to the number of containers. *)
Theorem every_container_counted :
  forall (dirs : list str) (site : site_type) (containers : list container)
         (folders : pyset),
    products_added (extract_product_info dirs site containers folders)
    + products_skipped_duplicate_folder
        (extract_product_info dirs site containers folders)
    + products_skipped_duplicate_id
        (extract_product_info dirs site containers folders)
    + products_skipped_missing_info
        (extract_product_info dirs site containers folders)
    = length containers.
Proof.
  intros. unfold extract_product_info. rewrite process_containers_count.
  reflexivity.
Qed.

(** What one turn does to the set of folder names: nothing, or one new
    name, sanitized, with the counter of added products stepped. *)
Lemma process_container_folders (site : site_type) (st : loop_state) (index : nat)
      (c : container) :
  (processed_product_folders (process_container site st index c)
   = processed_product_folders st /\
   products_added (process_container site st index c) = products_added st) \/
  (exists f, f = folder_name (product_name c) (product_id site index c) /\
             ~ In f (processed_product_folders st) /\
             processed_product_folders (process_container site st index c)
             = set_insert f (processed_product_folders st) /\
             products_added (process_container site st index c)
             = S (products_added st)).
Proof.
  unfold process_container.
  destruct (set_in _ (processed_product_ids st)); simpl; [left; auto|].
  destruct (_ && _); simpl; [left; auto|].
  destruct (set_in _ (processed_product_folders st)) eqn:E; simpl; [left; auto|].
  right. eexists. split; [reflexivity|]. apply set_in_false in E. auto.
Qed.

Lemma process_containers_grow (site : site_type) (containers : list container) :
  forall st index,
    incl (processed_product_folders st)
         (processed_product_folders (process_containers site st index containers)).
Proof.
  induction containers as [|c more IH]; intros st index; simpl; [apply incl_refl|].
  eapply incl_tran; [|apply IH].
  destruct (process_container_folders site st index c) as [[E _] | (f & _ & _ & E & _)];
    rewrite E; [apply incl_refl|].
  intros x Hx. apply in_set_insert. right. exact Hx.
Qed.

Lemma process_containers_length (site : site_type) (containers : list container) :
  forall st index,
    length (processed_product_folders (process_containers site st index containers))
    + products_added st
    = length (processed_product_folders st)
      + products_added (process_containers site st index containers).
Proof.
  induction containers as [|c more IH]; intros st index; simpl; [lia|].
  specialize (IH (process_container site st index c) (S index)).
  destruct (process_container_folders site st index c)
    as [[E Ea] | (f & _ & Hn & E & Ea)]; rewrite E, Ea in IH.
  - lia.
  - rewrite (@length_set_insert_new f _ Hn) in IH. lia.
Qed.

Lemma process_containers_nodup (site : site_type) (containers : list container) :
  forall st index,
    NoDup (processed_product_folders st) ->
    NoDup (processed_product_folders (process_containers site st index containers)).
Proof.
  induction containers as [|c more IH]; intros st index H; simpl; [exact H|].
  apply IH.
  destruct (process_container_folders site st index c) as [[E _] | (f & _ & _ & E & _)];
    rewrite E; [exact H|].
  apply ListSet.set_add_nodup. exact H.
Qed.

Lemma process_containers_new_safe (site : site_type) (containers : list container) :
  forall st index f,
    In f (processed_product_folders (process_containers site st index containers)) ->
    In f (processed_product_folders st) \/ safe_name f.
Proof.
  induction containers as [|c more IH]; intros st index f H; simpl in H; [auto|].
  apply IH in H. destruct H as [H|H]; [|auto].
  destruct (process_container_folders site st index c)
    as [[E _] | (g & Eg & _ & E & _)]; rewrite E in H; [auto|].
  apply in_set_insert in H. destruct H as [->|H]; [|auto].
  right. subst g. unfold folder_name. apply sanitize_filename_safe_name.
Qed.

(** X8.  The set of folder names only grows, by one name for each product
    added: after [extract_product_info] it has as many names as there were
    once the existing directories were taken in, plus the number of
    products added; nothing that was tracked is lost, and the names stay
    distinct. *)
Theorem one_new_folder_per_added_product :
  forall (dirs : list str) (site : site_type) (containers : list container)
         (folders : pyset),
    length (processed_product_folders
              (extract_product_info dirs site containers folders))
    = length (check_existing_folders (Some dirs) folders)
      + products_added (extract_product_info dirs site containers folders) /\
    (forall f, In f folders \/ In f dirs ->
               In f (processed_product_folders
                       (extract_product_info dirs site containers folders))) /\
    (NoDup folders -> NoDup dirs ->
     NoDup (processed_product_folders
              (extract_product_info dirs site containers folders))).
Proof.
  intros dirs site containers folders. unfold extract_product_info.
  split; [|split].
  - pose proof (process_containers_length site containers
                  (LoopState [] (check_existing_folders (Some dirs) folders) 0 0 0 0) 0)
      as H. simpl in H. simpl. lia.
  - intros f Hf. apply (process_containers_grow site containers). simpl.
    apply ListSet.set_union_iff. exact Hf.
  - intros Hf Hd. apply process_containers_nodup. simpl.
    apply ListSet.set_union_nodup; assumption.
Qed.

Lemma one_new_folder_per_added_product_witness :
  In (lit "old")
     (processed_product_folders
        (extract_product_info [lit "old"] Woodmart
           [Container (Some (lit "17793")) (Some (lit "Potty Liners"))] [])).
Proof.
  apply (proj1 (proj2 (one_new_folder_per_added_product [lit "old"] Woodmart
           [Container (Some (lit "17793")) (Some (lit "Potty Liners"))] []))).
  right. left. reflexivity.
Defined.

(** X9.  Every folder name taken during a run is a sanitized name: at most
    100 characters, none of them white space or a character of the class of
    line 11. *)
Theorem new_folder_names_are_safe :
  forall (dirs : list str) (site : site_type) (containers : list container)
         (folders : pyset) (f : str),
    In f (processed_product_folders
            (extract_product_info dirs site containers folders)) ->
    In f folders \/ In f dirs \/ safe_name f.
Proof.
  intros dirs site containers folders f H. unfold extract_product_info in H.
  apply process_containers_new_safe in H. simpl in H.
  destruct H as [H|H]; [|auto].
  apply ListSet.set_union_iff in H. tauto.
Qed.

Lemma new_folder_names_are_safe_witness :
  In (lit "Potty_Liners") [] \/ In (lit "Potty_Liners") [lit "old"] \/
  safe_name (lit "Potty_Liners").
Proof.
  apply (@new_folder_names_are_safe [lit "old"] Woodmart
           [Container (Some (lit "17793")) (Some (lit "Potty Liners"))] []).
  vm_compute. right. left. reflexivity.
Defined.

(** The ids do not depend on the folder names. *)
Lemma process_container_ids (site : site_type) (st : loop_state) (index : nat)
      (c : container) :
  processed_product_ids (process_container site st index c)
  = if set_in (product_id site index c) (processed_product_ids st)
    then processed_product_ids st
    else set_insert (product_id site index c) (processed_product_ids st).
Proof.
  unfold process_container.
  destruct (set_in _ (processed_product_ids st)); simpl; [reflexivity|].
  destruct (_ && _); simpl; [reflexivity|].
  destruct (set_in _ (processed_product_folders st)); reflexivity.
Qed.

(** A turn whose folder name is tracked already adds nothing. *)
Lemma process_container_known_folder (site : site_type) (st : loop_state)
      (index : nat) (c : container) :
  In (folder_name (product_name c) (product_id site index c))
     (processed_product_folders st) ->
  processed_product_folders (process_container site st index c)
  = processed_product_folders st /\
  products_added (process_container site st index c) = products_added st.
Proof.
  intros H.
  destruct (process_container_folders site st index c)
    as [[E Ea] | (f & -> & Hn & _)]; [auto | contradiction].
Qed.

(** The folder name of a turn that gets as far as line 245 is tracked
    afterwards. *)
Lemma process_container_tracks (site : site_type) (st : loop_state) (index : nat)
      (c : container) :
  let id := product_id site index c in
  set_in id (processed_product_ids st) = false ->
  ((if str_eq_dec (product_name c) na then true else false)
   && Py.startswith (lit "TEMP_") id = false) ->
  In (folder_name (product_name c) id)
     (processed_product_folders (process_container site st index c)).
Proof.
  intros id Hid Hm. unfold process_container. fold id. rewrite Hid, Hm.
  destruct (set_in (folder_name (product_name c) id) (processed_product_folders st))
    eqn:E; simpl.
  - apply set_in_true. exact E.
  - apply in_set_insert. left. reflexivity.
Qed.

Lemma second_run_adds_nothing (site : site_type) (containers : list container) :
  forall index st1 st2,
    processed_product_ids st1 = processed_product_ids st2 ->
    incl (processed_product_folders (process_containers site st1 index containers))
         (processed_product_folders st2) ->
    processed_product_folders (process_containers site st2 index containers)
    = processed_product_folders st2 /\
    products_added (process_containers site st2 index containers)
    = products_added st2.
Proof.
  induction containers as [|c more IH]; intros index st1 st2 Hids Hincl; simpl;
    [auto|].
  simpl in Hincl.
  assert (Hids' : processed_product_ids (process_container site st1 index c)
                  = processed_product_ids (process_container site st2 index c)).
  { rewrite !process_container_ids, Hids. reflexivity. }
  assert (Hstep : processed_product_folders (process_container site st2 index c)
                  = processed_product_folders st2 /\
                  products_added (process_container site st2 index c)
                  = products_added st2).
  { destruct (set_in (product_id site index c) (processed_product_ids st2)) eqn:Hid.
    - unfold process_container. rewrite Hid. simpl. auto.
    - destruct ((if str_eq_dec (product_name c) na then true else false)
                && Py.startswith (lit "TEMP_") (product_id site index c)) eqn:Hm.
      + unfold process_container. rewrite Hid, Hm. simpl. auto.
      + apply process_container_known_folder. apply Hincl.
        apply (process_containers_grow site more).
        apply process_container_tracks; [rewrite Hids; exact Hid | exact Hm]. }
  destruct Hstep as [Ef Ea].
  destruct (IH (S index) _ _ Hids') as [Ef' Ea'].
  - rewrite Ef. exact Hincl.
  - rewrite Ef', Ea'. auto.
Qed.

(** X10.  Going through the same containers again adds nothing, provided
    the folder names of the first run are tracked when the second begins:
    they are when the global set was kept, and also, after
    [reset_folder_tracking], when the folders of the first run are among
    the directories found.  The set of folder names is then left as
    [check_existing_folders] made it. *)
Theorem second_run_adds_no_product :
  forall (site : site_type) (containers : list container)
         (dirs1 dirs2 : list str) (folders1 folders2 : pyset),
    incl (processed_product_folders
            (extract_product_info dirs1 site containers folders1))
         (check_existing_folders (Some dirs2) folders2) ->
    products_added (extract_product_info dirs2 site containers folders2) = 0 /\
    processed_product_folders (extract_product_info dirs2 site containers folders2)
    = check_existing_folders (Some dirs2) folders2.
Proof.
  intros site containers dirs1 dirs2 folders1 folders2 H.
  unfold extract_product_info in *.
  destruct (@second_run_adds_nothing site containers 0
              (LoopState [] (check_existing_folders (Some dirs1) folders1) 0 0 0 0)
              (LoopState [] (check_existing_folders (Some dirs2) folders2) 0 0 0 0)
              eq_refl H) as [Ef Ea].
  auto.
Qed.

Lemma second_run_adds_no_product_witness :
  products_added
    (extract_product_info [] Woodmart
       [Container (Some (lit "17793")) (Some (lit "Potty Liners"));
        Container (Some (lit "17794")) (Some (lit "Potty: Liners"))]
       (processed_product_folders
          (extract_product_info [] Woodmart
             [Container (Some (lit "17793")) (Some (lit "Potty Liners"));
              Container (Some (lit "17794")) (Some (lit "Potty: Liners"))] [])))
  = 0.
Proof.
  apply (@second_run_adds_no_product Woodmart
           [Container (Some (lit "17793")) (Some (lit "Potty Liners"));
            Container (Some (lit "17794")) (Some (lit "Potty: Liners"))]
           [] [] []).
  vm_compute. intros f Hf. exact Hf.
Defined.

(** X11.  A container in which neither an id nor a title link is found is
    never added: it is skipped, as a duplicate id or for missing
    information, and takes no folder name. *)
Theorem anonymous_container_skipped :
  forall (site : site_type) (st : loop_state) (index : nat),
    processed_product_folders
      (process_container site st index (Container None None))
    = processed_product_folders st /\
    products_added (process_container site st index (Container None None))
    = products_added st /\
    products_skipped_duplicate_id
      (process_container site st index (Container None None))
    + products_skipped_missing_info
        (process_container site st index (Container None None))
    = S (products_skipped_duplicate_id st + products_skipped_missing_info st).
Proof.
  intros site st index.
  assert (Hm : (if str_eq_dec (product_name (Container None None)) na then true else false)
               && Py.startswith (lit "TEMP_")
                    (product_id site index (Container None None)) = true).
  { destruct site; reflexivity. }
  unfold process_container. rewrite Hm.
  destruct (set_in _ (processed_product_ids st)); simpl; repeat split; lia.
Qed.

Lemma process_container_id_tracked (site : site_type) (st : loop_state) (index : nat)
      (c : container) :
  In (product_id site index c)
     (processed_product_ids (process_container site st index c)) /\
  incl (processed_product_ids st)
       (processed_product_ids (process_container site st index c)).
Proof.
  rewrite process_container_ids.
  destruct (set_in _ (processed_product_ids st)) eqn:E.
  - split; [apply set_in_true; exact E | apply incl_refl].
  - split; [apply in_set_insert; auto|]. intros x Hx. apply in_set_insert. auto.
Qed.

Lemma process_containers_ids_grow (site : site_type) (containers : list container) :
  forall st index,
    incl (processed_product_ids st)
         (processed_product_ids (process_containers site st index containers)).
Proof.
  induction containers as [|c more IH]; intros st index; simpl; [apply incl_refl|].
  eapply incl_tran; [|apply IH].
  apply (proj2 (process_container_id_tracked site st index c)).
Qed.

Lemma process_containers_ids_tracked (site : site_type) (containers : list container) :
  forall st index k c0,
    nth_error containers k = Some c0 ->
    In (product_id site (index + k) c0)
       (processed_product_ids (process_containers site st index containers)).
Proof.
  induction containers as [|c more IH]; intros st index k c0 H.
  - destruct k; discriminate.
  - destruct k as [|k]; simpl in H.
    + injection H as ->. rewrite Nat.add_0_r. simpl.
      apply (process_containers_ids_grow site more).
      apply (proj1 (process_container_id_tracked site st index c0)).
    + simpl. replace (index + S k) with (S index + k) by lia. apply IH. exact H.
Qed.

(** X12.  A container whose id is the id of a container met earlier in the
    same call is skipped as a duplicate id: it takes no folder name, and
    only the counter of duplicate ids is stepped. *)
Theorem repeated_id_skipped :
  forall (site : site_type) (st : loop_state) (index : nat)
         (before : list container) (c c0 : container) (k : nat),
    nth_error before k = Some c0 ->
    product_id site (index + k) c0 = product_id site (index + length before) c ->
    process_container site (process_containers site st index before)
                      (index + length before) c
    = LoopState
        (processed_product_ids (process_containers site st index before))
        (processed_product_folders (process_containers site st index before))
        (products_added (process_containers site st index before))
        (products_skipped_duplicate_folder (process_containers site st index before))
        (S (products_skipped_duplicate_id (process_containers site st index before)))
        (products_skipped_missing_info (process_containers site st index before)).
Proof.
  intros site st index before c c0 k Hk Hid.
  assert (Hin : set_in (product_id site (index + length before) c)
                       (processed_product_ids (process_containers site st index before))
                = true).
  { apply set_in_true. rewrite <- Hid. apply process_containers_ids_tracked. exact Hk. }
  unfold process_container. rewrite Hin. reflexivity.
Qed.

Lemma repeated_id_skipped_witness :
  process_container Woodmart
    (process_containers Woodmart (LoopState [] [] 0 0 0 0) 0
       [Container (Some (lit "17793")) (Some (lit "Potty Liners"))])
    (0 + 1) (Container (Some (lit "17793")) (Some (lit "Another name")))
  = LoopState [lit "17793"] [lit "Potty_Liners"] 1 0 1 0.
Proof.
  apply (@repeated_id_skipped Woodmart (LoopState [] [] 0 0 0 0) 0
           [Container (Some (lit "17793")) (Some (lit "Potty Liners"))]
           (Container (Some (lit "17793")) (Some (lit "Another name")))
           (Container (Some (lit "17793")) (Some (lit "Potty Liners"))) 0);
    reflexivity.
Defined.

Lemma decimal_inj (n m : nat) : decimal n = decimal m -> n = m.
Proof.
  unfold decimal. intros H.
  apply (f_equal string_of_list_ascii) in H.
  rewrite !string_of_list_ascii_of_string in H.
  apply (f_equal DecimalString.NilEmpty.uint_of_string) in H.
  rewrite !DecimalString.NilEmpty.usu in H. injection H as H.
  apply DecimalNat.Unsigned.to_uint_inj. exact H.
Qed.

(** X13.  The ids made up for containers without an id (lines 154 and 193)
    are different at different positions of the page: two such containers
    are never taken for duplicates of each other. *)
Theorem made_up_ids_differ :
  forall (site : site_type) (i j : nat) (c1 c2 : container),
    found_id c1 = None -> found_id c2 = None ->
    product_id site i c1 = product_id site j c2 -> i = j.
Proof.
  intros site i j c1 c2 H1 H2. unfold product_id. rewrite H1, H2.
  destruct site.
  - destruct (str_eq_dec na na) as [_|N]; [|contradiction].
    intros H. apply app_inv_head in H. apply decimal_inj in H. lia.
  - intros H. apply app_inv_head in H. apply decimal_inj in H. lia.
Qed.

Lemma made_up_ids_differ_witness : 3 = 3.
Proof.
  apply (@made_up_ids_differ Default 3 3 (Container None None)
           (Container None (Some (lit "Potty Liners")))); reflexivity.
Defined.

(** ** More on the resolver *)

Lemma clean_url_not_nil (c : ascii) (u : str) : clean_url (c :: u) <> [].
Proof.
  destruct (clean_url_cases (c :: u)) as [(b & e & _ & ->) | (_ & ->)].
  - destruct b; discriminate.
  - discriminate.
Qed.

Lemma working_url_returns (image_url srcset_str : option str) :
  exists r, working_url image_url srcset_str = Ok r.
Proof.
  unfold working_url. destruct srcset_str as [[|a s]|]; simpl; eauto.
  destruct (srcset_best (a :: s)); simpl; eauto.
Qed.

(** X14.  The resolver never returns the empty string: its result is
    [None] or a string that is not empty, so that the tests of lines 236
    and 271 on the result tell whether there is a URL. *)
Theorem resolved_url_not_empty :
  forall (image_url srcset_str : option str) (r : str),
    get_original_image_url image_url srcset_str = Ok (Some r) -> r <> [].
Proof.
  intros image_url srcset_str r. unfold get_original_image_url.
  destruct (negb (Py.truthy image_url) && negb (Py.truthy srcset_str));
    [discriminate|].
  destruct (working_url_returns image_url srcset_str) as ([[|c u]|] & ->); simpl;
    try discriminate.
  intros H. injection H as <-. apply clean_url_not_nil.
Qed.

Lemma resolved_url_not_empty_witness : lit "https://x/img.jpg" <> [].
Proof.
  apply (@resolved_url_not_empty (Some (lit "https://x/img-300x300.jpg")) None).
  vm_compute. reflexivity.
Defined.

Lemma parse_entries_ignored (entries : list str) :
  Forall ignored_entry entries ->
  forall cands, parse_entries cands entries = Ok cands.
Proof.
  induction 1 as [|s_entry more Hi _ IH]; intros cands; [reflexivity|].
  simpl. assert (E : parse_entry cands s_entry = Ok cands).
  { unfold parse_entry. unfold ignored_entry in Hi.
    destruct (Py.split (Py.strip s_entry)) as [|u [|wd [|x parts]]];
      try reflexivity; [contradiction|].
    rewrite Hi. reflexivity. }
  rewrite E. simpl. apply IH.
Qed.

(** X15.  Entries that give no candidate do not count: when every entry
    of the srcset is empty, has more than two tokens, or has a second token
    that does not end in "w" (a density descriptor such as 2x), the result
    is the one the [src] alone gives. *)
Theorem srcset_without_candidates_falls_back :
  forall (image_url : option str) (s : str),
    Forall ignored_entry (Py.split_on "," s) ->
    get_original_image_url image_url (Some s)
    = get_original_image_url image_url None.
Proof.
  intros image_url s H. apply resolve_fallback. right.
  unfold srcset_best, parse_srcset. rewrite (parse_entries_ignored H). reflexivity.
Qed.

Lemma srcset_without_candidates_falls_back_witness :
  get_original_image_url (Some (lit "https://x/s-300x300.jpg"))
    (Some (lit "https://x/a.jpg 1x, https://x/b.jpg 2x"))
  = get_original_image_url (Some (lit "https://x/s-300x300.jpg")) None.
Proof.
  apply srcset_without_candidates_falls_back.
  repeat constructor.
Defined.

(** X16.  The [src] is a fall-back only: when the srcset gives a
    candidate, the result does not depend on the [src]. *)
Theorem src_ignored_when_srcset_has_candidate :
  forall (s : str) (cands : list candidate) (image_url1 image_url2 : option str),
    parse_srcset s = Ok cands -> cands <> [] ->
    get_original_image_url image_url1 (Some s)
    = get_original_image_url image_url2 (Some s).
Proof.
  intros s cands i1 i2 Hp Hc.
  destruct (choose_spec Hc) as (c & Ec & Hin & _).
  assert (Hu : url c <> []) by (apply (@pool_token_url s cands c Hp Hin)).
  rewrite (resolve_chosen i1 _ Hp Ec Hu), (resolve_chosen i2 _ Hp Ec Hu).
  reflexivity.
Qed.

Lemma src_ignored_when_srcset_has_candidate_witness :
  get_original_image_url None (Some (lit "https://x/a.jpg 10w"))
  = get_original_image_url (Some (lit "https://x/s.jpg")) (Some (lit "https://x/a.jpg 10w")).
Proof.
  apply (@src_ignored_when_srcset_has_candidate (lit "https://x/a.jpg 10w")
           [Candidate (lit "https://x/a.jpg") 10]).
  - reflexivity.
  - discriminate.
Defined.

Lemma split_on_none (sep : ascii) (u : str) :
  forallb (fun c => negb (Ascii.eqb c sep)) u = true -> Py.split_on sep u = [u].
Proof.
  induction u as [|c t IH]; simpl; [reflexivity|]. intros H.
  apply andb_true_iff in H. destruct H as [Hc Ht]. apply negb_true_iff in Hc.
  rewrite Hc, (IH Ht). reflexivity.
Qed.

Lemma lstrip_token (u : str) : no_space u -> Py.lstrip u = u.
Proof.
  destruct u as [|c t]; [reflexivity|]. unfold no_space. simpl. intros H.
  apply andb_true_iff in H. destruct H as [Hc _]. apply negb_true_iff in Hc.
  rewrite Hc. reflexivity.
Qed.

Lemma strip_token (u : str) : no_space u -> Py.strip u = u.
Proof.
  intros H. unfold Py.strip, Py.rstrip. rewrite (lstrip_token H).
  rewrite lstrip_token; [apply rev_involutive|].
  apply forallb_rev. exact H.
Qed.

Lemma split_token (u : str) : token u -> Py.split u = [u].
Proof.
  intros [Hn Hs]. apply (@split_join [u]). constructor; [split; auto | constructor].
Qed.

(** X17.  A srcset that is one bare URL (no comma, no white space) gives
    this URL, cleaned, whatever the [src] is. *)
Theorem bare_url_srcset :
  forall (image_url : option str) (u : str),
    token u ->
    forallb (fun c => negb (Ascii.eqb c ",")) u = true ->
    get_original_image_url image_url (Some u) = Ok (Some (clean_url u)).
Proof.
  intros image_url u Ht Hc.
  assert (Hp : parse_srcset u = Ok [Candidate u 0]).
  { unfold parse_srcset. rewrite (split_on_none _ _ Hc). simpl.
    unfold parse_entry. rewrite (strip_token (proj2 Ht)), (split_token Ht).
    reflexivity. }
  apply resolve_chosen with (cands := [Candidate u 0]); [exact Hp | | apply Ht].
  unfold choose, non_resized. simpl. destruct (negb (looks_resized u)); reflexivity.
Qed.

Lemma bare_url_srcset_witness :
  get_original_image_url None (Some (lit "https://x/a.jpg"))
  = Ok (Some (clean_url (lit "https://x/a.jpg"))).
Proof.
  apply bare_url_srcset.
  - split; [discriminate | reflexivity].
  - reflexivity.
Defined.

(** ** A srcset in its usual form is read back *)

Lemma isdigit_not_int_space (c : ascii) : Py.isdigit c = true -> Py.int_isspace c = false.
Proof.
  unfold Py.isdigit, Py.int_isspace, in_range. intros H.
  apply andb_true_iff in H. destruct H as [H1 H2].
  apply Nat.leb_le in H1. apply Nat.leb_le in H2.
  repeat (apply orb_false_iff; split).
  - apply andb_false_iff. right. apply Nat.leb_gt. lia.
  - apply Nat.eqb_neq. lia.
  - apply Nat.eqb_neq. lia.
  - apply Nat.eqb_neq. lia.
Qed.

Lemma isdigit_not_space (c : ascii) : Py.isdigit c = true -> Py.isspace c = false.
Proof.
  unfold Py.isdigit, Py.isspace, in_range. intros H.
  apply andb_true_iff in H. destruct H as [H1 H2].
  apply Nat.leb_le in H1. apply Nat.leb_le in H2.
  repeat (apply orb_false_iff; split).
  - apply andb_false_iff. right. apply Nat.leb_gt. lia.
  - apply andb_false_iff. right. apply Nat.leb_gt. lia.
  - apply Nat.eqb_neq. lia.
  - apply Nat.eqb_neq. lia.
Qed.

Lemma int_lstrip_digit (c : ascii) (s : str) :
  Py.isdigit c = true -> Py.int_lstrip (c :: s) = c :: s.
Proof. intros H. simpl. rewrite (isdigit_not_int_space _ H). reflexivity. Qed.

Lemma int_strip_digits (s : str) :
  forallb Py.isdigit s = true -> Py.int_strip s = s.
Proof.
  intros H. unfold Py.int_strip.
  assert (E : forall w, forallb Py.isdigit w = true -> Py.int_lstrip w = w).
  { intros [|c w] Hw; [reflexivity|]. simpl in Hw. apply andb_true_iff in Hw.
    apply int_lstrip_digit. tauto. }
  rewrite (E s H), (E (rev s)); [apply rev_involutive|].
  rewrite forallb_rev_eq. exact H.
Qed.

Lemma int_digits_step (c : ascii) (t : str) (a n k : nat) :
  Py.isdigit c = true -> Py.digit_val c = Z.of_nat k ->
  Py.int_digits (Z.of_nat a) n false (c :: t)
  = Py.int_digits (Z.of_nat (k + 10 * a)) (S n) false t.
Proof.
  intros Hc Hv. cbn [Py.int_digits]. rewrite Hc, Hv. f_equal. lia.
Qed.

(** The digits of a decimal numeral, read by [int]. *)
Lemma int_digits_uint (d : Decimal.uint) :
  forall (a n : nat),
    Py.int_digits (Z.of_nat a) n false
      (list_ascii_of_string (DecimalString.NilEmpty.string_of_uint d))
    = Some (Z.of_nat (Nat.of_uint_acc d a), n + Decimal.nb_digits d).
Proof.
  induction d; intros a n;
    cbn [DecimalString.NilEmpty.string_of_uint list_ascii_of_string
         Nat.of_uint_acc Decimal.nb_digits];
    try (simpl; rewrite Nat.add_0_r; reflexivity);
    rewrite Nat.tail_mul_spec.
  - rewrite (@int_digits_step _ _ a n 0) by reflexivity. rewrite IHd.
    do 2 f_equal; lia.
  - rewrite (@int_digits_step _ _ a n 1) by reflexivity. rewrite IHd.
    do 2 f_equal; lia.
  - rewrite (@int_digits_step _ _ a n 2) by reflexivity. rewrite IHd.
    do 2 f_equal; lia.
  - rewrite (@int_digits_step _ _ a n 3) by reflexivity. rewrite IHd.
    do 2 f_equal; lia.
  - rewrite (@int_digits_step _ _ a n 4) by reflexivity. rewrite IHd.
    do 2 f_equal; lia.
  - rewrite (@int_digits_step _ _ a n 5) by reflexivity. rewrite IHd.
    do 2 f_equal; lia.
  - rewrite (@int_digits_step _ _ a n 6) by reflexivity. rewrite IHd.
    do 2 f_equal; lia.
  - rewrite (@int_digits_step _ _ a n 7) by reflexivity. rewrite IHd.
    do 2 f_equal; lia.
  - rewrite (@int_digits_step _ _ a n 8) by reflexivity. rewrite IHd.
    do 2 f_equal; lia.
  - rewrite (@int_digits_step _ _ a n 9) by reflexivity. rewrite IHd.
    do 2 f_equal; lia.
Qed.

Lemma uint_digits (d : Decimal.uint) :
  forallb Py.isdigit
    (list_ascii_of_string (DecimalString.NilEmpty.string_of_uint d)) = true /\
  length (list_ascii_of_string (DecimalString.NilEmpty.string_of_uint d))
  = Decimal.nb_digits d.
Proof.
  induction d; simpl; try (destruct IHd as [-> ->]); auto.
Qed.

Lemma to_uint_not_nil (n : nat) : Nat.to_uint n <> Decimal.Nil.
Proof.
  rewrite <- (DecimalNat.Unsigned.of_to n) at 1.
  rewrite DecimalNat.Unsigned.to_of. unfold Decimal.unorm.
  destruct (Decimal.nzhead (Nat.to_uint n)); discriminate.
Qed.

Lemma decimal_digits (n : nat) :
  forallb Py.isdigit (decimal n) = true /\ decimal n <> [].
Proof.
  unfold decimal. split; [apply uint_digits|].
  pose proof (to_uint_not_nil n) as H.
  destruct (Nat.to_uint n); try contradiction; discriminate.
Qed.

Lemma int_of_digits (s : str) :
  s <> [] -> forallb Py.isdigit s = true ->
  Py.int s =
  match Py.int_digits 0 0 false s with
  | Some (v, k) =>
      if (Py.int_max_str_digits <? k)%nat then Raise ValueError else Ok (1 * v)%Z
  | None => Raise ValueError
  end.
Proof.
  intros Hn Hd. unfold Py.int. rewrite (int_strip_digits _ Hd).
  destruct s as [|c w]; [contradiction|].
  assert (Hc : Py.isdigit c = true).
  { simpl in Hd. apply andb_true_iff in Hd. tauto. }
  assert (Hp : Ascii.eqb c "+" = false).
  { destruct (Ascii.eqb_spec c "+") as [->|]; [discriminate | reflexivity]. }
  assert (Hm : Ascii.eqb c "-" = false).
  { destruct (Ascii.eqb_spec c "-") as [->|]; [discriminate | reflexivity]. }
  rewrite Hp, Hm. unfold Py.int_body. rewrite Hc. reflexivity.
Qed.

(** [int] of the decimal writing of a number is the number, as long as the
    writing is not too long for [int]. *)
Lemma int_decimal (n : nat) :
  length (decimal n) <= Py.int_max_str_digits ->
  Py.int (decimal n) = Ok (Z.of_nat n).
Proof.
  intros Hlen. destruct (decimal_digits n) as [Hd Hn].
  rewrite (int_of_digits Hn Hd).
  unfold decimal in *. change 0%Z with (Z.of_nat 0). rewrite int_digits_uint.
  rewrite (proj2 (uint_digits (Nat.to_uint n))) in Hlen.
  change (Nat.of_uint_acc (Nat.to_uint n) 0) with (Nat.of_uint (Nat.to_uint n)).
  rewrite DecimalNat.Unsigned.of_to. cbn [plus].
  apply Nat.ltb_ge in Hlen. rewrite Hlen. f_equal. lia.
Qed.

Lemma strip_core (pad x : str) (c l : ascii) :
  forallb Py.isspace pad = true ->
  Py.isspace c = false -> Py.isspace l = false ->
  Py.strip (pad ++ c :: x ++ [l]) = c :: x ++ [l].
Proof.
  intros Hpad Hc Hl. unfold Py.strip, Py.rstrip.
  rewrite (@lstrip_app_all pad _ Hpad).
  assert (E1 : Py.lstrip (c :: x ++ [l]) = c :: x ++ [l])
    by (simpl; rewrite Hc; reflexivity).
  assert (E2 : rev (c :: x ++ [l]) = l :: rev (c :: x)).
  { change (c :: x ++ [l]) with ((c :: x) ++ [l]). rewrite rev_app_distr.
    reflexivity. }
  assert (E3 : Py.lstrip (l :: rev (c :: x)) = l :: rev (c :: x))
    by (simpl; rewrite Hl; reflexivity).
  rewrite E1, E2, E3.
  change (rev (l :: rev (c :: x))) with (rev (rev (c :: x)) ++ [l]).
  rewrite rev_involutive. reflexivity.
Qed.

Lemma forallb_isdigit_no_space (w : str) :
  forallb Py.isdigit w = true -> no_space w.
Proof.
  intros H. apply forallb_forall. intros c Hc. rewrite forallb_forall in H.
  rewrite (isdigit_not_space _ (H c Hc)). reflexivity.
Qed.

Lemma forallb_isdigit_no_comma (w : str) :
  forallb Py.isdigit w = true ->
  forallb (fun c => negb (Ascii.eqb c ",")) w = true.
Proof.
  intros H. apply forallb_forall. intros c Hc. rewrite forallb_forall in H.
  specialize (H c Hc).
  destruct (Ascii.eqb_spec c ",") as [->|]; [discriminate | reflexivity].
Qed.

Lemma forallb_space_no_comma (w : str) :
  forallb Py.isspace w = true ->
  forallb (fun c => negb (Ascii.eqb c ",")) w = true.
Proof.
  intros H. apply forallb_forall. intros c Hc. rewrite forallb_forall in H.
  specialize (H c Hc).
  destruct (Ascii.eqb_spec c ",") as [->|]; [discriminate | reflexivity].
Qed.

(** An entry in the usual form, after any white space, gives its
    candidate. *)
Lemma parse_entry_written (cands : list candidate) (pad : str) (e : str * nat) :
  writable_entry e -> forallb Py.isspace pad = true ->
  parse_entry cands (pad ++ srcset_entry e)
  = Ok (cands ++ [Candidate (fst e) (Z.of_nat (snd e))]).
Proof.
  destruct e as [u n]. intros ([Hn Hs] & _ & Hlen) Hpad. simpl fst in *. simpl snd in *.
  destruct (decimal_digits n) as [Hd Hdn].
  assert (Htok : token (decimal n ++ lit "w")).
  { split; [destruct (decimal n); discriminate|].
    unfold no_space. rewrite forallb_app. fold (no_space (decimal n)).
    rewrite (forallb_isdigit_no_space _ Hd). reflexivity. }
  assert (Hstrip : Py.strip (pad ++ srcset_entry (u, n)) = srcset_entry (u, n)).
  { unfold srcset_entry. simpl fst. simpl snd.
    destruct u as [|c x]; [contradiction|].
    unfold no_space in Hs. simpl in Hs. apply andb_true_iff in Hs.
    destruct Hs as [Hc _]. apply negb_true_iff in Hc.
    replace ((c :: x) ++ lit " " ++ decimal n ++ lit "w")
      with (c :: (x ++ lit " " ++ decimal n) ++ ["w"%char])
      by (simpl; rewrite <- !app_assoc; reflexivity).
    apply strip_core; auto. }
  assert (Hsplit : Py.split (srcset_entry (u, n)) = [u; decimal n ++ lit "w"]).
  { apply (@split_join [u; decimal n ++ lit "w"]).
    constructor; [split; auto|]. constructor; [exact Htok | constructor]. }
  unfold parse_entry. rewrite Hstrip, Hsplit.
  assert (He : Py.endswith (lit "w") (decimal n ++ lit "w") = true).
  { unfold Py.endswith. rewrite rev_app_distr. reflexivity. }
  rewrite He. unfold Py.drop_last.
  change (lit "w") with ["w"%char]. rewrite removelast_last.
  rewrite (int_decimal _ Hlen). reflexivity.
Qed.

Lemma split_on_sep (sep : ascii) (a b : str) :
  forallb (fun c => negb (Ascii.eqb c sep)) a = true ->
  Py.split_on sep (a ++ sep :: b) = a :: Py.split_on sep b.
Proof.
  induction a as [|c t IH]; simpl; intros H.
  - rewrite Ascii.eqb_refl. reflexivity.
  - apply andb_true_iff in H. destruct H as [Hc Ht]. apply negb_true_iff in Hc.
    rewrite Hc, (IH Ht). reflexivity.
Qed.

Lemma srcset_entry_no_comma (pad : str) (e : str * nat) :
  writable_entry e -> forallb Py.isspace pad = true ->
  forallb (fun c => negb (Ascii.eqb c ",")) (pad ++ srcset_entry e) = true.
Proof.
  intros (_ & Hc & _) Hpad. unfold srcset_entry.
  rewrite !forallb_app, (forallb_space_no_comma _ Hpad), Hc,
    (forallb_isdigit_no_comma _ (proj1 (decimal_digits (snd e)))).
  reflexivity.
Qed.

Lemma parse_entries_written (l : list (str * nat)) :
  Forall writable_entry l -> l <> [] ->
  forall (pad : str) (cands : list candidate),
    forallb Py.isspace pad = true ->
    parse_entries cands
      (Py.split_on "," (pad ++ Py.join (lit ", ") (map srcset_entry l)))
    = Ok (cands ++ map (fun e => Candidate (fst e) (Z.of_nat (snd e))) l).
Proof.
  induction 1 as [|e more He Hmore IH]; intros Hl pad cands Hpad; [contradiction|].
  destruct more as [|e2 more].
  - cbn [map]. rewrite join_cons.
    rewrite (@split_on_none _ _ (@srcset_entry_no_comma pad e He Hpad)).
    cbn [parse_entries]. rewrite (@parse_entry_written cands pad e He Hpad).
    reflexivity.
  - change (map srcset_entry (e :: e2 :: more))
      with (srcset_entry e :: map srcset_entry (e2 :: more)).
    change (map (fun e => Candidate (fst e) (Z.of_nat (snd e))) (e :: e2 :: more))
      with (Candidate (fst e) (Z.of_nat (snd e))
            :: map (fun e => Candidate (fst e) (Z.of_nat (snd e))) (e2 :: more)).
    assert (Ej : Py.join (lit ", ") (srcset_entry e :: map srcset_entry (e2 :: more))
                 = srcset_entry e ++ ","%char ::
                   lit " " ++ Py.join (lit ", ") (map srcset_entry (e2 :: more)))
      by reflexivity.
    rewrite Ej, app_assoc.
    rewrite (@split_on_sep _ _ _ (@srcset_entry_no_comma pad e He Hpad)).
    cbn [parse_entries]. rewrite (@parse_entry_written cands pad e He Hpad).
    cbn [bind]. rewrite IH; [| discriminate | reflexivity].
    rewrite <- app_assoc. reflexivity.
Qed.

(** X18.  A srcset written in the usual form is read back as it was
    written: entries made of a URL, a space, a width in decimal digits and
    "w", separated by a comma and a space, give one candidate for each
    entry, in the same order, with the URL and the width of the entry; the
    reading does not raise. *)
Theorem written_srcset_read_back :
  forall l : list (str * nat),
    Forall writable_entry l ->
    parse_srcset (Py.join (lit ", ") (map srcset_entry l))
    = Ok (map (fun e => Candidate (fst e) (Z.of_nat (snd e))) l).
Proof.
  intros l Hl. destruct l as [|e more]; [reflexivity|].
  unfold parse_srcset.
  apply (@parse_entries_written (e :: more) Hl) with (pad := []) (cands := []);
    [discriminate | reflexivity].
Qed.

Lemma written_srcset_read_back_witness :
  parse_srcset (Py.join (lit ", ")
                  (map srcset_entry [(lit "https://x/a-300x300.jpg", 300);
                                     (lit "https://x/a.jpg", 1000)]))
  = Ok (map (fun e => Candidate (fst e) (Z.of_nat (snd e)))
            [(lit "https://x/a-300x300.jpg", 300); (lit "https://x/a.jpg", 1000)]).
Proof.
  apply written_srcset_read_back.
  repeat constructor; try discriminate; simpl; unfold Py.int_max_str_digits; lia.
Defined.
